(** * MicroBitLightSensor: the display-interleaved ambient light sensor

    A shallow embedding of [source/drivers/MicroBitLightSensor.cpp] and the
    properties of its averaging, channel rotation and read-out.

    The members of the class and the pieces of the runtime the driver talks
    to (the default event bus, the events it raises, the pin and timer
    primitives it calls) are gathered in one record; every member function
    is a transformer of that record.  C [int] values are integers of [Z]
    with the 32-bit wrap-around written out. *)

From stdpp Require Import base list numbers option.

Local Open Scope Z_scope.

(** ** C integers *)

Definition INT_MIN : Z := - 2 ^ 31.
Definition INT_MAX : Z := 2 ^ 31 - 1.

(** The value an [int] holds after an operation whose exact result is [x]. *)
Definition wrap_int (x : Z) : Z := (x + 2 ^ 31) mod 2 ^ 32 - 2 ^ 31.

(** [unsigned short], the return type of [AnalogIn::read_u16]. *)
Definition wrap_u16 (x : Z) : Z := x mod 2 ^ 16.

(** ** What the driver sees of the runtime *)

Definition PinName := Z.

(** The fields of [MatrixMap] the driver reads. *)
Record MatrixMap := mkMatrixMap {
  rows : Z;
  columns : Z;
  rowStart : Z;
  columnStart : Z
}.

Inductive EventSource := MICROBIT_ID_DISPLAY | MICROBIT_ID_LIGHT_SENSOR.

Inductive EventValue :=
  | MICROBIT_DISPLAY_EVT_LIGHT_SENSE
  | MICROBIT_DISPLAY_EVT_LIGHT_SENSE_READY.

(** A constructed [MicroBitEvent(source, value)]. *)
Record MicroBitEvent := mkEvent {
  source : EventSource;
  value : EventValue
}.

Inductive Handler := startSensing_handler.

Inductive ListenerFlag := MESSAGE_BUS_LISTENER_DEFAULT | MESSAGE_BUS_LISTENER_IMMEDIATE.

(** An entry of the event bus made by [listen(id, value, this, handler, flags)]. *)
Record Listener := mkListener {
  l_id : EventSource;
  l_value : EventValue;
  l_handler : Handler;
  l_flags : ListenerFlag
}.

#[global] Instance EventSource_eq_dec : EqDecision EventSource.
Proof. solve_decision. Defined.
#[global] Instance EventValue_eq_dec : EqDecision EventValue.
Proof. solve_decision. Defined.
#[global] Instance Handler_eq_dec : EqDecision Handler.
Proof. solve_decision. Defined.

(** The primitive pin, converter and timer operations, in the order the
    driver issues them. *)
Inductive HwOp :=
  | DigitalOut_write (pin : PinName) (level : Z)
  | DigitalIn_destroy (pin : PinName)
  | AnalogIn_delete (pin : PinName)
  | AnalogIn_new (pin : PinName)
  | AnalogIn_read_u16 (pin : PinName)
  | ADC_disable
  | Timeout_attach_us (delay : Z).

(** ** The sensor

    [results], [chan], [average], [valid_average], [sensePin],
    [analogTrigger] and [matrixMap] are the members of the class.
    [sensePin] is [None] for [NULL] and otherwise the pin the allocated
    [AnalogIn] is bound to; [analogTrigger] is [None] when the one-shot
    timeout is idle and [Some delay] while it waits to call [analogReady].
    [defaultEventBus] is [EventModel::defaultEventBus] ([None] for [NULL],
    otherwise its listeners), [raised] the events constructed so far and
    [hw] the primitive operations issued so far.

    The integer members are taken to be [int], the type of the locals of
    [update_averages] and [read] they are copied to and from. *)
Record MicroBitLightSensor := mkSensor {
  results : list Z;
  chan : Z;
  average : Z;
  valid_average : Z;
  sensePin : option PinName;
  analogTrigger : option Z;
  matrixMap : MatrixMap;
  defaultEventBus : option (list Listener);
  raised : list MicroBitEvent;
  hw : list HwOp
}.

Definition set_results (v : list Z) (s : MicroBitLightSensor) : MicroBitLightSensor :=
  mkSensor v (chan s) (average s) (valid_average s) (sensePin s)
    (analogTrigger s) (matrixMap s) (defaultEventBus s) (raised s) (hw s).

Definition set_chan (v : Z) (s : MicroBitLightSensor) : MicroBitLightSensor :=
  mkSensor (results s) v (average s) (valid_average s) (sensePin s)
    (analogTrigger s) (matrixMap s) (defaultEventBus s) (raised s) (hw s).

Definition set_average (v : Z) (s : MicroBitLightSensor) : MicroBitLightSensor :=
  mkSensor (results s) (chan s) v (valid_average s) (sensePin s)
    (analogTrigger s) (matrixMap s) (defaultEventBus s) (raised s) (hw s).

Definition set_valid_average (v : Z) (s : MicroBitLightSensor) : MicroBitLightSensor :=
  mkSensor (results s) (chan s) (average s) v (sensePin s)
    (analogTrigger s) (matrixMap s) (defaultEventBus s) (raised s) (hw s).

Definition set_sensePin (v : option PinName) (s : MicroBitLightSensor) : MicroBitLightSensor :=
  mkSensor (results s) (chan s) (average s) (valid_average s) v
    (analogTrigger s) (matrixMap s) (defaultEventBus s) (raised s) (hw s).

Definition set_analogTrigger (v : option Z) (s : MicroBitLightSensor) : MicroBitLightSensor :=
  mkSensor (results s) (chan s) (average s) (valid_average s) (sensePin s)
    v (matrixMap s) (defaultEventBus s) (raised s) (hw s).

Definition set_matrixMap (v : MatrixMap) (s : MicroBitLightSensor) : MicroBitLightSensor :=
  mkSensor (results s) (chan s) (average s) (valid_average s) (sensePin s)
    (analogTrigger s) v (defaultEventBus s) (raised s) (hw s).

Definition set_defaultEventBus (v : option (list Listener)) (s : MicroBitLightSensor) : MicroBitLightSensor :=
  mkSensor (results s) (chan s) (average s) (valid_average s) (sensePin s)
    (analogTrigger s) (matrixMap s) v (raised s) (hw s).

(** Modelled from the spec: the constructor of [MicroBitEvent]
    (MicroBitEvent.cpp is not among the sources).  Constructing the event
    publishes it: the "readiness notification fires". *)
Definition raise (e : MicroBitEvent) (s : MicroBitLightSensor) : MicroBitLightSensor :=
  mkSensor (results s) (chan s) (average s) (valid_average s) (sensePin s)
    (analogTrigger s) (matrixMap s) (defaultEventBus s) (raised s ++ [e]) (hw s).

(** Issue one primitive operation. *)
Definition emit (o : HwOp) (s : MicroBitLightSensor) : MicroBitLightSensor :=
  mkSensor (results s) (chan s) (average s) (valid_average s) (sensePin s)
    (analogTrigger s) (matrixMap s) (defaultEventBus s) (raised s) (hw s ++ [o]).

(** The listener the constructor registers and the destructor removes. *)
Definition sense_listener : Listener :=
  mkListener MICROBIT_ID_DISPLAY MICROBIT_DISPLAY_EVT_LIGHT_SENSE
    startSensing_handler MESSAGE_BUS_LISTENER_IMMEDIATE.

Definition listener_matches (id : EventSource) (v : EventValue) (h : Handler)
    (l : Listener) : bool :=
  bool_decide (l_id l = id) && bool_decide (l_value l = v)
  && bool_decide (l_handler l = h).

(** Modelled from the spec: [listen] and [ignore] of the event bus (the
    [EventModel] and message bus sources are not among the sources), the
    subscribe and unsubscribe of the notification bus.  [listen] adds the
    listener; [ignore(id, value, this, handler)] removes the listeners
    registered for that id, value and handler. *)
Definition listen (l : Listener) (ls : list Listener) : list Listener := ls ++ [l].

Definition ignore (id : EventSource) (v : EventValue) (h : Handler)
    (ls : list Listener) : list Listener :=
  filter (fun l => ¬ Is_true (listener_matches id v h l)) ls.

Definition ready_event : MicroBitEvent :=
  mkEvent MICROBIT_ID_LIGHT_SENSOR MICROBIT_DISPLAY_EVT_LIGHT_SENSE_READY.

Section Driver.

(** The configuration macros of [MicroBitLightSensor.h]. *)
Variable MICROBIT_LIGHT_SENSOR_CHAN_NUM : Z.
Variable MICROBIT_LIGHT_SENSOR_AN_SET_TIME : Z.
Variable MICROBIT_LIGHT_SENSOR_MIN_VALUE : Z.
Variable MICROBIT_LIGHT_SENSOR_MAX_VALUE : Z.

Abbreviation C := MICROBIT_LIGHT_SENSOR_CHAN_NUM.
Abbreviation MINV := MICROBIT_LIGHT_SENSOR_MIN_VALUE.
Abbreviation MAXV := MICROBIT_LIGHT_SENSOR_MAX_VALUE.

(** The indices [0 .. C-1] a [for (int i = 0; i < C; i++)] loop visits. *)
Definition channels : list nat := seq 0 (Z.to_nat C).

(** *** update_averages *)

(** One turn of the loop of [update_averages], on the pair [(valid, sum)].
    The array has [C] slots, so the loop stays inside it; the total lookup
    only makes the definition total on shorter lists. *)
Definition update_averages_body (res : list Z) (acc : bool * Z) (i : nat) : bool * Z :=
  let r := res !!! i in
  (if (r <? 0) || (r >? 450) then false else acc.1,
   wrap_int (acc.2 + Z.max r 0)).

Definition update_averages_loop (res : list Z) : bool * Z :=
  foldl (update_averages_body res) (true, 0) channels.

Definition update_averages (s : MicroBitLightSensor) : bool * MicroBitLightSensor :=
  let '(valid, sum) := update_averages_loop (results s) in
  let s := set_average (wrap_int (sum ÷ C)) s in
  if valid
  then (valid, raise ready_event (set_valid_average (average s) s))
  else (valid, s).

(** *** analogReady *)

(** [analogDisable]: the two register writes that switch the converter off. *)
Definition analogDisable (s : MicroBitLightSensor) : MicroBitLightSensor :=
  emit ADC_disable s.

(** The part of [analogReady] before the call of [update_averages]: store
    the conversion [raw] delivers, hand the column back to the display and
    move to the next channel.  Reading through a [NULL] [sensePin] and
    storing outside the array have no defined result. *)
Definition analogReady_sample (raw : Z) (s : MicroBitLightSensor) : option MicroBitLightSensor :=
  match sensePin s with
  | None => None
  | Some pin =>
    if bool_decide (0 ≤ chan s < Z.of_nat (length (results s))) then
      let s := emit (AnalogIn_read_u16 pin) s in
      let s := set_results (<[Z.to_nat (chan s) := wrap_u16 raw]> (results s)) s in
      let s := analogDisable s in
      let s := emit (DigitalOut_write (columnStart (matrixMap s) + chan s) 1) s in
      let s := set_chan (wrap_int (chan s + 1)) s in
      let s := set_chan (wrap_int (Z.rem (chan s) C)) s in
      Some s
    else None
  end.

Definition analogReady (raw : Z) (s : MicroBitLightSensor) : option MicroBitLightSensor :=
  match analogReady_sample raw s with
  | None => None
  | Some s => Some (update_averages s).2
  end.

(** *** The constructor

    It runs on the storage [s] of the new object and leaves every member
    it does not assign as that storage has it. *)
Definition MicroBitLightSensor_ctor (map : MatrixMap) (s : MicroBitLightSensor) : MicroBitLightSensor :=
  let s := set_analogTrigger None s in
  let s := set_matrixMap map s in
  let s := set_chan 0 s in
  let s := set_valid_average (-1) s in
  let s := set_results (foldl (fun res i => <[i := -1]> res) (results s) channels) s in
  let s :=
    match defaultEventBus s with
    | Some ls => set_defaultEventBus (Some (listen sense_listener ls)) s
    | None => s
    end in
  set_sensePin None s.

(** *** read *)

Definition read (valid_only : bool) (s : MicroBitLightSensor) : Z :=
  let average := if valid_only then valid_average s else average s in
  if valid_only && (average <? 0) then -1
  else
    let average := Z.min average MAXV in
    let average := Z.max average MINV in
    let inverted := wrap_int (wrap_int (MAXV - average) + MINV) in
    let a := 0 in
    let b := 255 in
    let normalised :=
      wrap_int (a + wrap_int (wrap_int (wrap_int (inverted - MINV) * wrap_int (b - a))
                              ÷ wrap_int (MAXV - MINV))) in
    normalised.

(** *** startSensing *)

(** The loop that drives every row low. *)
Definition rows_low (s : MicroBitLightSensor) : MicroBitLightSensor :=
  foldl (fun s rowCount =>
           emit (DigitalOut_write (rowStart (matrixMap s) + Z.of_nat rowCount) 0) s)
        s (seq 0 (Z.to_nat (rows (matrixMap s)))).

Definition startSensing (s : MicroBitLightSensor) : MicroBitLightSensor :=
  let s := rows_low s in
  let currentPin := columnStart (matrixMap s) + chan s in
  let s := emit (DigitalOut_write currentPin 1) s in
  let s := emit (DigitalIn_destroy currentPin) s in
  let s :=
    match sensePin s with
    | Some p => emit (AnalogIn_delete p) s
    | None => s
    end in
  let s := set_sensePin (Some currentPin) (emit (AnalogIn_new currentPin) s) in
  set_analogTrigger (Some MICROBIT_LIGHT_SENSOR_AN_SET_TIME)
    (emit (Timeout_attach_us MICROBIT_LIGHT_SENSOR_AN_SET_TIME) s).

(** *** The destructor (its body) *)

Definition MicroBitLightSensor_dtor (s : MicroBitLightSensor) : MicroBitLightSensor :=
  match defaultEventBus s with
  | Some ls =>
    set_defaultEventBus
      (Some (ignore MICROBIT_ID_DISPLAY MICROBIT_DISPLAY_EVT_LIGHT_SENSE
               startSensing_handler ls)) s
  | None => s
  end.

(** *** The sensor in use

    Between construction and destruction two things happen to the sensor:
    [startSensing] is called (by the event bus when the display offers a
    slot, or by hand), and the armed one-shot timeout fires and calls
    [analogReady] with the conversion the converter then delivers. *)
Inductive action :=
  | StartSensing
  | TimeoutFires (raw : Z).

(** What one run of [analogReady] did: the channel it stored a sample for
    and the value its call of [update_averages] returned. *)
Record cycle := mkCycle {
  c_chan : Z;
  c_valid : bool
}.

Definition cycle_of (raw : Z) (s : MicroBitLightSensor) : option cycle :=
  match analogReady_sample raw s with
  | None => None
  | Some s1 => Some (mkCycle (chan s) (update_averages s1).1)
  end.

(** One action, on the sensor and the record of completed cycles.  The
    timeout only fires while it is armed, and firing disarms it. *)
Definition step (a : action) (st : MicroBitLightSensor * list cycle)
    : option (MicroBitLightSensor * list cycle) :=
  match a with
  | StartSensing => Some (startSensing st.1, st.2)
  | TimeoutFires raw =>
    match analogTrigger st.1 with
    | None => None
    | Some _ =>
      let s := set_analogTrigger None st.1 in
      match analogReady raw s, cycle_of raw s with
      | Some s', Some c => Some (s', st.2 ++ [c])
      | _, _ => None
      end
    end
  end.

Definition run_from (tr : list action) (st : MicroBitLightSensor * list cycle)
    : option (MicroBitLightSensor * list cycle) :=
  foldl (fun o a => o ≫= step a) (Some st) tr.

(** A run of a sensor whose record of cycles is still empty. *)
Definition run (tr : list action) (s : MicroBitLightSensor)
    : option (MicroBitLightSensor * list cycle) :=
  run_from tr (s, []).

End Driver.

(** ** Specification vocabulary *)

(** The validity window of a raw sample. *)
Definition in_window (r : Z) : Prop := 0 ≤ r ≤ 450.

(** The sum of [max(sample, 0)] over the result set. *)
Definition clamped_sum (res : list Z) : Z := foldr (fun r acc => Z.max r 0 + acc) 0 res.

(** The scaling the specification gives for [read]: clamp into
    [MINV, MAXV], invert, rescale to [0, 255] with truncating division. *)
Definition spec_scale (MINV MAXV average : Z) : Z :=
  let clamped := Z.max (Z.min average MAXV) MINV in
  let inverted := (MAXV - clamped) + MINV in
  ((inverted - MINV) * 255) ÷ (MAXV - MINV).

(** The never-sampled and no-data sentinel. *)
Definition SENTINEL : Z := -1.

(** The number of cycles of a record that were valid. *)
Definition valid_cycles (log : list cycle) : nat := length (filter (fun c => c_valid c = true) log).

(** The sensing phase read off the sensor: a cycle is in flight from the
    moment the timeout is armed until it has fired. *)
Definition in_flight (s : MicroBitLightSensor) : bool :=
  match analogTrigger s with Some _ => true | None => false end.

(** Two sensors that differ at most in the primitive operations issued. *)
Definition same_members (s s' : MicroBitLightSensor) : Prop :=
  results s' = results s ∧ chan s' = chan s ∧ average s' = average s
  ∧ valid_average s' = valid_average s ∧ sensePin s' = sensePin s
  ∧ analogTrigger s' = analogTrigger s ∧ matrixMap s' = matrixMap s
  ∧ defaultEventBus s' = defaultEventBus s ∧ raised s' = raised s.

(** The channels for which a record of cycles holds a sample. *)
Definition sampled (log : list cycle) : list Z := c_chan <$> log.

(** The channel the [k]-th conversion (counted from 0) belongs to in a
    strict rotation over [C] channels. *)
Definition rotation (C : Z) (n : nat) : list Z :=
  (fun k => Z.of_nat k mod C) <$> seq 0 n.

(** What holds of the sensor [s] and the record [log] of its completed
    cycles whenever it was constructed with [map] on the storage [s0] and
    used since: the array keeps its size, the channel counter and the
    record follow the rotation, an armed timeout has a pin to read, a slot
    is the sentinel exactly while its channel has no sample, the valid
    average is the sentinel exactly while no cycle was valid, and one
    readiness event was raised per valid cycle. *)
Definition in_use (C : Z) (map : MatrixMap) (s0 : MicroBitLightSensor)
    (st : MicroBitLightSensor * list cycle) : Prop :=
  let s := st.1 in
  let log := st.2 in
  length (results s) = Z.to_nat C
  ∧ chan s = Z.of_nat (length log) mod C
  ∧ sampled log = rotation C (length log)
  ∧ (is_Some (analogTrigger s) → is_Some (sensePin s))
  ∧ (∀ (i : nat) (r : Z), results s !! i = Some r →
       (r = SENTINEL ∧ Z.of_nat i ∉ sampled log)
       ∨ (0 ≤ r ≤ 65535 ∧ Z.of_nat i ∈ sampled log))
  ∧ (valid_cycles log = 0%nat ∧ valid_average s = SENTINEL
     ∨ valid_cycles log ≠ 0%nat ∧ 0 ≤ valid_average s ≤ 450)
  ∧ raised s = raised s0 ++ replicate (valid_cycles log) ready_event
  ∧ matrixMap s = map
  ∧ defaultEventBus s = listen sense_listener <$> defaultEventBus s0.

(** The primitive operations of one hand-off of the column of channel
    [chan] to the converter: rows low, column high, the digital input torn
    down, the previous [AnalogIn] (if any) deleted, a new one allocated and
    the timeout armed. *)
Definition acquire_ops (AN : Z) (map : MatrixMap) (chan : Z) (old : option PinName)
    : list HwOp :=
  let pin := columnStart map + chan in
  ((fun rowCount => DigitalOut_write (rowStart map + Z.of_nat rowCount) 0)
     <$> seq 0 (Z.to_nat (rows map)))
  ++ [DigitalOut_write pin 1; DigitalIn_destroy pin]
  ++ match old with Some p => [AnalogIn_delete p] | None => [] end
  ++ [AnalogIn_new pin; Timeout_attach_us AN].



(** The re-entrancy guard as the specification words it: a start request
    that arrives while a cycle is in flight begins no hand-off. *)
Definition start_guarded (AN : Z) (s : MicroBitLightSensor) : Prop :=
  in_flight s = true → hw (startSensing AN s) = hw s.

(** ** Concrete data for the examples *)

(** The matrix map of the micro:bit display: three rows from pin 13, nine
    columns from pin 4. *)
Definition microbitMatrixMap : MatrixMap := mkMatrixMap 3 9 13 4.

(** Object storage before construction, three result slots wide: no
    default event bus, every member zero. *)
Definition storage0 : MicroBitLightSensor :=
  mkSensor [0; 0; 0] 0 0 0 None None (mkMatrixMap 0 0 0 0) None [] [].

(** The same storage with a default event bus that has no listener yet. *)
Definition storage_bus : MicroBitLightSensor :=
  set_defaultEventBus (Some []) storage0.

(** Three full cycles delivering the samples 100, 150 and 125. *)
Definition scenario : list action :=
  [StartSensing; TimeoutFires 100; StartSensing; TimeoutFires 150;
   StartSensing; TimeoutFires 125].

(** A fourth cycle after them whose sample, 500, lies outside the window. *)
Definition scenario_then_invalid : list action :=
  scenario ++ [StartSensing; TimeoutFires 500].

(** The sensor constructed for the micro:bit display with three channels,
    without and with a default event bus. *)
Definition sensor0 : MicroBitLightSensor :=
  MicroBitLightSensor_ctor 3 microbitMatrixMap storage0.

Definition sensor_bus : MicroBitLightSensor :=
  MicroBitLightSensor_ctor 3 microbitMatrixMap storage_bus.

(** The sensor and its record of cycles after one conversion and after
    the four of [scenario_then_invalid]. *)
Definition after_first : MicroBitLightSensor * list cycle :=
  Eval vm_compute in
    default (sensor0, []) (run 3 4000 [StartSensing; TimeoutFires 100] sensor0).

Definition after_invalid : MicroBitLightSensor * list cycle :=
  Eval vm_compute in default (sensor0, []) (run 3 4000 scenario_then_invalid sensor0).

(** A sensor with a cycle in flight: constructed, then started once. *)
Definition sensor_settling : MicroBitLightSensor :=
  Eval vm_compute in startSensing 4000 sensor_bus.

(** ** Further vocabulary *)

(** The number of [AnalogIn] objects a sequence of primitive operations
    leaves allocated: each [new] adds one, each [delete] takes one away. *)
Definition analog_live (ops : list HwOp) : Z :=
  foldr (fun o n =>
           match o with
           | AnalogIn_new _ => 1 + n
           | AnalogIn_delete _ => -1 + n
           | _ => n
           end) 0 ops.


(** An action that brings no sample outside the window: a start request,
    or a conversion whose 16-bit value is at most 450. *)
Definition in_window_action (a : action) : Prop :=
  match a with
  | StartSensing => True
  | TimeoutFires raw => in_window (wrap_u16 raw)
  end.

(** * MicroBitEddyStoneService: the rotating Eddystone advertisement

    The second source of the repository: the service advertises one of
    its three frames (UID, URL, TLM) at a time and moves to the next frame
    with every call of [updateAdvertisementPacket].  The frame classes,
    the BLE stack and the serial port are outside these sources: what the
    frames answer is an input of each call, and the calls made on the BLE
    stack, the heap and the serial port are recorded in the order they are
    made. *)

(** A [ManagedString], as the codes of its characters. *)
Definition ManagedString := list Z.

Inductive GapFlag := BREDR_NOT_SUPPORTED | LE_GENERAL_DISCOVERABLE.

Inductive AdvDataType := COMPLETE_LIST_16BIT_SERVICE_IDS | SERVICE_DATA.

(** What a [printf] on the serial port prints. *)
Inductive Printed :=
  | print_config (url namespaceID instanceID : ManagedString)
  | print_frame (frame : Z)
  | print_raw_label
  | print_uid_label
  | print_byte (b : Z)
  | print_newline.

Inductive EddyOp :=
  | serial_printf (p : Printed)
  | gap_setAdvertisingType_NON_CONNECTABLE_UNDIRECTED
  | gap_setAdvertisingInterval (interval : Z)
  | gap_clearAdvertisingPayload
  | gap_accumulateFlags (flags : list GapFlag)
  | gap_accumulateData (type : AdvDataType) (data : list Z) (len : Z)
  | gap_startAdvertising
  | heap_malloc (len : Z)
  | heap_free.

(** What one frame object answers: the value of [length()] and the bytes
    the buffer of that length holds after [getFrame]. *)
Record FrameData := mkFrameData {
  fd_length : Z;
  fd_buffer : list Z
}.

(** What the surroundings answer during one call of
    [updateAdvertisementPacket]: the three frames, [getEncodedUID()] of
    the UID frame, and whether [malloc] returns a buffer. *)
Record Answers := mkAnswers {
  uidFrame : FrameData;
  urlFrame : FrameData;
  tlmFrame : FrameData;
  getEncodedUID : Z;
  malloc_ok : bool
}.

(** The members of the service the sources assign, and the calls made so
    far.  [currentFrame] is taken to be an [int]. *)
Record MicroBitEddyStoneService := mkEddy {
  namespaceID : ManagedString;
  instance : ManagedString;
  currentFrame : Z;
  eddy_ops : list EddyOp
}.

Definition eddy_emit (o : EddyOp) (s : MicroBitEddyStoneService) : MicroBitEddyStoneService :=
  mkEddy (namespaceID s) (instance s) (currentFrame s) (eddy_ops s ++ [o]).

Definition eddy_emits (os : list EddyOp) (s : MicroBitEddyStoneService) : MicroBitEddyStoneService :=
  mkEddy (namespaceID s) (instance s) (currentFrame s) (eddy_ops s ++ os).

(** [uint8_t], the type of the bytes of the service id. *)
Definition wrap_u8 (x : Z) : Z := x mod 2 ^ 8.

(** The two bytes [uid] built from the 16-bit encoded UID. *)
Definition uid_bytes (encodedUID : Z) : list Z :=
  [wrap_u8 (Z.land encodedUID 15); wrap_u8 (Z.shiftr encodedUID 8)].

Section EddyStone.

(** The number of frames in the rotation, and whether the debug output
    is compiled in. *)
Variable EDDYSTONE_NUM_EDDYSTONE_FRAMES : Z.
Variable MICROBIT_DBG : bool.

(** The frame the [switch] selects; no case for other values, which
    leaves [data] and [len] without a value. *)
Definition selected_frame (a : Answers) (frame : Z) : option FrameData :=
  if frame =? 0 then Some (uidFrame a)
  else if frame =? 1 then Some (urlFrame a)
  else if frame =? 2 then Some (tlmFrame a)
  else None.

(** The debug output of one packet. *)
Definition debug_output (frame : Z) (f : FrameData) (uid : list Z) : list EddyOp :=
  [serial_printf (print_frame frame); serial_printf print_raw_label]
  ++ ((fun i => serial_printf (print_byte (fd_buffer f !!! i)))
        <$> seq 0 (Z.to_nat (fd_length f)))
  ++ [serial_printf print_newline; serial_printf print_uid_label]
  ++ ((fun i => serial_printf (print_byte (uid !!! i))) <$> seq 0 2)
  ++ [serial_printf print_newline].

(** The calls that rebuild the advertising payload. *)
Definition payload_ops (f : FrameData) (uid : list Z) : list EddyOp :=
  [gap_clearAdvertisingPayload;
   gap_accumulateFlags [BREDR_NOT_SUPPORTED; LE_GENERAL_DISCOVERABLE];
   gap_accumulateData COMPLETE_LIST_16BIT_SERVICE_IDS uid 2;
   gap_accumulateData SERVICE_DATA (fd_buffer f) (fd_length f)].

(** [updateAdvertisementPacket].  Using [data] and [len] when the
    [switch] gave them no value, or writing the frame through the null
    pointer of a failed [malloc], has no defined result. *)
Definition updateAdvertisementPacket (a : Answers) (s : MicroBitEddyStoneService)
    : option MicroBitEddyStoneService :=
  let frame := wrap_int (Z.rem (wrap_int (currentFrame s + 1)) EDDYSTONE_NUM_EDDYSTONE_FRAMES) in
  let s := mkEddy (namespaceID s) (instance s) frame (eddy_ops s) in
  match selected_frame a frame with
  | None => None
  | Some f =>
    let s := eddy_emit (heap_malloc (fd_length f)) s in
    if malloc_ok a then
      let encodedUID := wrap_u16 (getEncodedUID a) in
      let uid := uid_bytes encodedUID in
      let s := if MICROBIT_DBG then eddy_emits (debug_output frame f uid) s else s in
      let s := eddy_emits (payload_ops f uid) s in
      Some (eddy_emit heap_free s)
    else None
  end.

(** The constructor, on the storage [s] of the new object. *)
Definition MicroBitEddyStoneService_ctor (url namespaceID instanceID : ManagedString)
    (a : Answers) (s : MicroBitEddyStoneService) : option MicroBitEddyStoneService :=
  let s := eddy_emit (serial_printf (print_config url namespaceID instanceID)) s in
  let s := mkEddy namespaceID instanceID 0 (eddy_ops s) in
  let s := eddy_emit gap_setAdvertisingType_NON_CONNECTABLE_UNDIRECTED s in
  let s := eddy_emit (gap_setAdvertisingInterval 100) s in
  match updateAdvertisementPacket a s with
  | None => None
  | Some s => Some (eddy_emit gap_startAdvertising s)
  end.

(** The packets advertised one after the other, each with the answers
    the surroundings give at that call. *)
Definition advertise (answers : list Answers) (s : MicroBitEddyStoneService)
    : option MicroBitEddyStoneService :=
  foldl (fun o a => o ≫= updateAdvertisementPacket a) (Some s) answers.

End EddyStone.

(** The little-endian 16-bit value of two bytes. *)
Definition uid_value (uid : list Z) : Z := uid !!! 0%nat + 256 * uid !!! 1%nat.

(** The service data a sequence of calls advertised last, with its
    length argument. *)
Definition last_service_data (ops : list EddyOp) : option (list Z * Z) :=
  foldl (fun acc o =>
           match o with
           | gap_accumulateData SERVICE_DATA data len => Some (data, len)
           | _ => acc
           end) None ops.

(** The number of buffers a sequence of calls leaves allocated. *)
Definition heap_live (ops : list EddyOp) : Z :=
  foldr (fun o n =>
           match o with
           | heap_malloc _ => 1 + n
           | heap_free => -1 + n
           | _ => n
           end) 0 ops.

(** Concrete answers: three frames of distinct content and the encoded
    UID 0xBEEF. *)
Definition answers0 : Answers :=
  mkAnswers (mkFrameData 2 [0; 10]) (mkFrameData 3 [16; 20; 30])
    (mkFrameData 1 [32]) 48879 true.

Definition eddy_storage : MicroBitEddyStoneService := mkEddy [] [] 7 [].

(** Further states of the three-channel sensor: before and after the
    third conversion of [scenario], after the first conversion of the
    sensor with an event bus, and two conversions after the invalid
    fourth one. *)
Definition scenario_open : list action :=
  [StartSensing; TimeoutFires 100; StartSensing; TimeoutFires 150; StartSensing].

Definition before_third : MicroBitLightSensor * list cycle :=
  Eval vm_compute in default (sensor0, []) (run 3 4000 scenario_open sensor0).

Definition after_third : MicroBitLightSensor * list cycle :=
  Eval vm_compute in default (sensor0, []) (run 3 4000 scenario sensor0).

Definition settled_first : MicroBitLightSensor * list cycle :=
  Eval vm_compute in
    default (sensor_bus, []) (step 3 4000 (TimeoutFires 100) (sensor_settling, [])).

Definition two_more : list action :=
  [StartSensing; TimeoutFires 10; StartSensing; TimeoutFires 20].

Definition after_two_more : MicroBitLightSensor * list cycle :=
  Eval vm_compute in default (sensor0, []) (run_from 3 4000 two_more after_invalid).

(** A listener of another component, and storage whose default event
    bus already holds it. *)
Definition other_listener : Listener :=
  mkListener MICROBIT_ID_LIGHT_SENSOR MICROBIT_DISPLAY_EVT_LIGHT_SENSE_READY
    startSensing_handler MESSAGE_BUS_LISTENER_DEFAULT.

Definition storage_shared : MicroBitLightSensor :=
  set_defaultEventBus (Some [other_listener]) storage0.

Definition after_shared : MicroBitLightSensor * list cycle :=
  Eval vm_compute in
    default (sensor0, [])
      (run 3 4000 scenario (MicroBitLightSensor_ctor 3 microbitMatrixMap storage_shared)).

(** ** Arithmetic of C integers *)

Lemma wrap_int_id (x : Z) : INT_MIN ≤ x ≤ INT_MAX → wrap_int x = x.
Proof.
  unfold INT_MIN, INT_MAX, wrap_int. intros Hx.
  rewrite Z.mod_small; lia.
Qed.

Lemma wrap_u16_range (x : Z) : 0 ≤ wrap_u16 x ≤ 65535.
Proof.
  unfold wrap_u16. pose proof (Z.mod_pos_bound x (2 ^ 16)). lia.
Qed.

(** ** Lists read through their indices *)

Lemma fmap_lookup_total_seq (res : list Z) :
  (fun i => res !!! i) <$> seq 0 (length res) = res.
Proof.
  apply list_eq. intros i. rewrite list_lookup_fmap.
  destruct (decide (i < length res)%nat) as [Hlt | Hge].
  - rewrite lookup_seq_lt by done. simpl.
    destruct (lookup_lt_is_Some_2 res i Hlt) as [r Hr].
    rewrite Hr. f_equal. by apply list_lookup_total_correct.
  - rewrite lookup_seq_ge by lia. simpl.
    symmetry. apply lookup_ge_None. lia.
Qed.

Lemma clamped_sum_nonneg (res : list Z) : 0 ≤ clamped_sum res.
Proof. induction res as [| r res IH]; simpl; lia. Qed.

Lemma clamped_sum_bound (res : list Z) (b : Z) :
  0 ≤ b → Forall (fun r => r ≤ b) res → clamped_sum res ≤ b * Z.of_nat (length res).
Proof.
  intros Hb. induction 1 as [| r res Hr _ IH]; [simpl; lia |].
  change (clamped_sum (r :: res)) with (Z.max r 0 + clamped_sum res).
  rewrite length_cons, Nat2Z.inj_succ. lia.
Qed.

Section Properties.

Variable MICROBIT_LIGHT_SENSOR_CHAN_NUM : Z.
Variable MICROBIT_LIGHT_SENSOR_AN_SET_TIME : Z.
Variable MICROBIT_LIGHT_SENSOR_MIN_VALUE : Z.
Variable MICROBIT_LIGHT_SENSOR_MAX_VALUE : Z.

Abbreviation C := MICROBIT_LIGHT_SENSOR_CHAN_NUM.
Abbreviation AN := MICROBIT_LIGHT_SENSOR_AN_SET_TIME.
Abbreviation MINV := MICROBIT_LIGHT_SENSOR_MIN_VALUE.
Abbreviation MAXV := MICROBIT_LIGHT_SENSOR_MAX_VALUE.

(** There is at least one channel, and a full set of 16-bit conversions
    sums within [int]. *)
Hypothesis C_pos : 0 < C.
Hypothesis C_fits : C * 65535 ≤ INT_MAX.

(** The sensing range is a non-empty range of [int] whose width times 255
    is an [int] as well. *)
Hypothesis range_nonempty : MINV < MAXV.
Hypothesis range_min : INT_MIN ≤ MINV.
Hypothesis range_max : MAXV ≤ INT_MAX.
Hypothesis range_scaled : (MAXV - MINV) * 255 ≤ INT_MAX.

(** *** The loop of update_averages *)

Lemma loop_valid (res : list Z) (idx : list nat) (v : bool) (sm : Z) :
  (foldl (update_averages_body res) (v, sm) idx).1 = true
  ↔ v = true ∧ Forall (fun i => in_window (res !!! i)) idx.
Proof.
  revert v sm. induction idx as [| i idx IH]; intros v sm.
  - simpl. split; [intros ->; split; [done | constructor] | by intros [-> _]].
  - change (foldl (update_averages_body res) (v, sm) (i :: idx))
      with (foldl (update_averages_body res)
              (if (res !!! i <? 0) || (res !!! i >? 450) then false else v,
               wrap_int (sm + Z.max (res !!! i) 0)) idx).
    etransitivity; [apply IH |]. rewrite Forall_cons_iff. unfold in_window.
    destruct (Z.ltb_spec (res !!! i) 0) as [Hlo | Hlo],
             (Z.gtb_spec (res !!! i) 450) as [Hhi | Hhi]; simpl;
      clear IH; intuition (try discriminate; try lia).
Qed.

Lemma loop_sum (res : list Z) (idx : list nat) (v : bool) (sm : Z) :
  Forall (fun i => -1 ≤ res !!! i ≤ 65535) idx →
  0 ≤ sm →
  sm + 65535 * Z.of_nat (length idx) ≤ INT_MAX →
  (foldl (update_averages_body res) (v, sm) idx).2
  = sm + clamped_sum ((fun i => res !!! i) <$> idx).
Proof.
  intros Hall. revert v sm.
  induction Hall as [| i idx Hi _ IH]; intros v sm Hsm Hfit.
  - simpl. lia.
  - rewrite length_cons, Nat2Z.inj_succ in Hfit.
    change (foldl (update_averages_body res) (v, sm) (i :: idx))
      with (foldl (update_averages_body res)
              (if (res !!! i <? 0) || (res !!! i >? 450) then false else v,
               wrap_int (sm + Z.max (res !!! i) 0)) idx).
    assert (Hw : wrap_int (sm + Z.max (res !!! i) 0) = sm + Z.max (res !!! i) 0).
    { apply wrap_int_id. unfold INT_MIN, INT_MAX in Hfit |- *. lia. }
    rewrite Hw, IH by lia.
    rewrite fmap_cons.
    change (clamped_sum (res !!! i :: ((fun i => res !!! i) <$> idx)))
      with (Z.max (res !!! i) 0 + clamped_sum ((fun i => res !!! i) <$> idx)).
    lia.
Qed.

Lemma update_averages_loop_valid (res : list Z) :
  length res = Z.to_nat C →
  (update_averages_loop C res).1 = true ↔ Forall in_window res.
Proof.
  intros Hlen. unfold update_averages_loop, channels. rewrite <- Hlen.
  rewrite loop_valid.
  rewrite <- (fmap_lookup_total_seq res) at 2. rewrite Forall_fmap.
  split; [by intros [_ H] | by intros H].
Qed.

Lemma update_averages_loop_sum (res : list Z) :
  length res = Z.to_nat C →
  Forall (fun r => -1 ≤ r ≤ 65535) res →
  (update_averages_loop C res).2 = clamped_sum res.
Proof using C_pos C_fits.
  intros Hlen Hall. unfold update_averages_loop, channels. rewrite <- Hlen.
  rewrite loop_sum.
  - by rewrite fmap_lookup_total_seq.
  - rewrite <- (fmap_lookup_total_seq res) in Hall. by rewrite Forall_fmap in Hall.
  - done.
  - rewrite length_seq, Hlen. lia.
Qed.

(** *** What each member function changes *)

Lemma update_averages_valid (s : MicroBitLightSensor) :
  (update_averages C s).1 = (update_averages_loop C (results s)).1.
Proof.
  unfold update_averages.
  destruct (update_averages_loop C (results s)) as [[] sm]; reflexivity.
Qed.

Lemma update_averages_average (s : MicroBitLightSensor) :
  average (update_averages C s).2
  = wrap_int ((update_averages_loop C (results s)).2 ÷ C).
Proof.
  unfold update_averages.
  destruct (update_averages_loop C (results s)) as [[] sm]; reflexivity.
Qed.

Lemma update_averages_frame (s : MicroBitLightSensor) :
  let s' := (update_averages C s).2 in
  results s' = results s ∧ chan s' = chan s ∧ sensePin s' = sensePin s
  ∧ analogTrigger s' = analogTrigger s ∧ matrixMap s' = matrixMap s
  ∧ defaultEventBus s' = defaultEventBus s ∧ hw s' = hw s.
Proof.
  unfold update_averages.
  destruct (update_averages_loop C (results s)) as [[] sm]; simpl; done.
Qed.

Lemma update_averages_outcome (s : MicroBitLightSensor) :
  let r := update_averages C s in
  if r.1
  then valid_average r.2 = average r.2 ∧ raised r.2 = raised s ++ [ready_event]
  else valid_average r.2 = valid_average s ∧ raised r.2 = raised s.
Proof.
  unfold update_averages.
  destruct (update_averages_loop C (results s)) as [[] sm]; simpl; done.
Qed.

Lemma same_members_refl (s : MicroBitLightSensor) : same_members s s.
Proof. by repeat split. Qed.

Lemma same_members_emit (o : HwOp) (s s' : MicroBitLightSensor) :
  same_members s s' → same_members s (emit o s').
Proof. unfold same_members. simpl. done. Qed.

Lemma rows_low_same (s : MicroBitLightSensor) : same_members s (rows_low s).
Proof.
  unfold rows_low. generalize (seq 0 (Z.to_nat (rows (matrixMap s)))).
  intros l. cut (∀ s', same_members s s' →
    same_members s (foldl (fun s rowCount =>
      emit (DigitalOut_write (rowStart (matrixMap s) + Z.of_nat rowCount) 0) s) s' l)).
  { intros H. apply H, same_members_refl. }
  induction l as [| i l IH]; intros s' Hs'; simpl; [done |].
  by apply IH, same_members_emit.
Qed.

Lemma rows_low_hw (s : MicroBitLightSensor) :
  hw (rows_low s)
  = hw s ++ ((fun rowCount => DigitalOut_write (rowStart (matrixMap s) + Z.of_nat rowCount) 0)
               <$> seq 0 (Z.to_nat (rows (matrixMap s)))).
Proof.
  unfold rows_low. generalize (seq 0 (Z.to_nat (rows (matrixMap s)))).
  intros l. set (m := matrixMap s).
  cut (∀ s', matrixMap s' = m →
    hw (foldl (fun s rowCount =>
      emit (DigitalOut_write (rowStart (matrixMap s) + Z.of_nat rowCount) 0) s) s' l)
    = hw s' ++ ((fun rowCount => DigitalOut_write (rowStart m + Z.of_nat rowCount) 0) <$> l)).
  { intros H. by apply H. }
  induction l as [| i l IH]; intros s' Hs'; simpl.
  - by rewrite app_nil_r.
  - rewrite IH by done. simpl. rewrite Hs'. by rewrite <- app_assoc.
Qed.

Lemma startSensing_frame (s : MicroBitLightSensor) :
  let s' := startSensing AN s in
  results s' = results s ∧ chan s' = chan s ∧ average s' = average s
  ∧ valid_average s' = valid_average s ∧ matrixMap s' = matrixMap s
  ∧ defaultEventBus s' = defaultEventBus s ∧ raised s' = raised s
  ∧ sensePin s' = Some (columnStart (matrixMap s) + chan s)
  ∧ analogTrigger s' = Some AN.
Proof.
  destruct (rows_low_same s) as (Hr & Hc & Ha & Hv & Hp & Ht & Hm & Hb & He).
  unfold startSensing. simpl.
  destruct (sensePin (rows_low s)); simpl; rewrite Hr, Hc, Ha, Hv, Hm, Hb, He; done.
Qed.

Lemma analogReady_sample_spec (raw : Z) (s s1 : MicroBitLightSensor) :
  analogReady_sample C raw s = Some s1 →
  results s1 = <[Z.to_nat (chan s) := wrap_u16 raw]> (results s)
  ∧ chan s1 = wrap_int (Z.rem (wrap_int (chan s + 1)) C)
  ∧ average s1 = average s ∧ valid_average s1 = valid_average s
  ∧ sensePin s1 = sensePin s ∧ analogTrigger s1 = analogTrigger s
  ∧ matrixMap s1 = matrixMap s ∧ defaultEventBus s1 = defaultEventBus s
  ∧ raised s1 = raised s.
Proof.
  unfold analogReady_sample. destruct (sensePin s) as [pin |] eqn:Hpin; [| done].
  case_bool_decide; [| done].
  intros [= <-]. simpl. done.
Qed.

Lemma analogReady_sample_total (raw : Z) (s : MicroBitLightSensor) :
  is_Some (sensePin s) → 0 ≤ chan s < Z.of_nat (length (results s)) →
  is_Some (analogReady_sample C raw s).
Proof.
  intros [pin Hpin] Hchan. unfold analogReady_sample. rewrite Hpin.
  rewrite bool_decide_eq_true_2 by done. eauto.
Qed.

Lemma update_averages_average_spec (s : MicroBitLightSensor) :
  length (results s) = Z.to_nat C →
  Forall (fun r => -1 ≤ r ≤ 65535) (results s) →
  average (update_averages C s).2 = clamped_sum (results s) `div` C.
Proof using C_pos C_fits.
  intros Hlen Hall.
  rewrite update_averages_average, update_averages_loop_sum by done.
  pose proof (clamped_sum_nonneg (results s)) as H0.
  assert (Hb : clamped_sum (results s) ≤ 65535 * Z.of_nat (length (results s))).
  { apply clamped_sum_bound; [lia |]. eapply Forall_impl; [| exact Hall].
    simpl. intros r Hr. lia. }
  rewrite Hlen, Z2Nat.id in Hb by lia.
  rewrite Z.quot_div_nonneg by lia.
  apply wrap_int_id.
  assert (0 ≤ clamped_sum (results s) `div` C) by (apply Z.div_pos; lia).
  assert (clamped_sum (results s) `div` C ≤ 65535 * C).
  { apply Z.div_le_upper_bound; [lia |]. nia. }
  unfold INT_MIN, INT_MAX in *. lia.
Qed.

Lemma valid_average_in_window (s : MicroBitLightSensor) :
  length (results s) = Z.to_nat C →
  (update_averages C s).1 = true →
  0 ≤ valid_average (update_averages C s).2 ≤ 450.
Proof using C_pos C_fits.
  intros Hlen Hvalid.
  pose proof (update_averages_outcome s) as Hout. simpl in Hout.
  rewrite Hvalid in Hout. destruct Hout as [-> _].
  rewrite update_averages_valid, update_averages_loop_valid in Hvalid by done.
  rewrite update_averages_average_spec; [| done |].
  - pose proof (clamped_sum_nonneg (results s)) as H0.
    assert (Hb : clamped_sum (results s) ≤ 450 * Z.of_nat (length (results s))).
    { apply clamped_sum_bound; [lia |]. eapply Forall_impl; [| exact Hvalid].
      unfold in_window. simpl. intros r Hr. lia. }
    rewrite Hlen, Z2Nat.id in Hb by lia.
    split; [apply Z.div_pos; lia |].
    apply Z.div_le_upper_bound; lia.
  - eapply Forall_impl; [| exact Hvalid]. unfold in_window. simpl. intros r Hr. lia.
Qed.

(** *** The constructor *)

Lemma fill_shift (x : Z) (res : list Z) (idx : list nat) :
  foldl (fun res i => <[i := -1]> res) (x :: res) (S <$> idx)
  = x :: foldl (fun res i => <[i := -1]> res) res idx.
Proof.
  revert res. induction idx as [| i idx IH]; intros res; simpl; [done |].
  apply IH.
Qed.

Lemma fill_all (res : list Z) :
  foldl (fun res i => <[i := -1]> res) res (seq 0 (length res))
  = replicate (length res) (-1).
Proof.
  induction res as [| r res IH]; [done |].
  simpl length. rewrite <- cons_seq, <- fmap_S_seq. simpl.
  by rewrite fill_shift, IH.
Qed.

Lemma ctor_fields (map : MatrixMap) (s0 : MicroBitLightSensor) :
  let s := MicroBitLightSensor_ctor C map s0 in
  results s = foldl (fun res i => <[i := -1]> res) (results s0) (channels C)
  ∧ chan s = 0 ∧ average s = average s0 ∧ valid_average s = -1
  ∧ sensePin s = None ∧ analogTrigger s = None ∧ matrixMap s = map
  ∧ defaultEventBus s = listen sense_listener <$> defaultEventBus s0
  ∧ raised s = raised s0 ∧ hw s = hw s0.
Proof.
  unfold MicroBitLightSensor_ctor. simpl.
  destruct (defaultEventBus s0) as [ls |] eqn:Hbus; simpl; rewrite ?Hbus; done.
Qed.

Lemma ctor_results (map : MatrixMap) (s0 : MicroBitLightSensor) :
  length (results s0) = Z.to_nat C →
  results (MicroBitLightSensor_ctor C map s0) = replicate (Z.to_nat C) (-1).
Proof.
  intros Hlen. destruct (ctor_fields map s0) as (-> & _).
  unfold channels. rewrite <- Hlen. apply fill_all.
Qed.

(** *** Runs of the sensor *)

Lemma run_snoc (tr : list action) (a : action) (s : MicroBitLightSensor) :
  run C AN (tr ++ [a]) s = run C AN tr s ≫= step C AN a.
Proof. unfold run, run_from. by rewrite foldl_app. Qed.

Lemma run_invariant (P : MicroBitLightSensor * list cycle → Prop) (s0 : MicroBitLightSensor) :
  P (s0, []) →
  (∀ a st st', P st → step C AN a st = Some st' → P st') →
  ∀ tr st, run C AN tr s0 = Some st → P st.
Proof.
  intros Hinit Hstep tr.
  induction tr as [| a tr IH] using rev_ind; intros st Hrun.
  - by injection Hrun as <-.
  - rewrite run_snoc in Hrun.
    destruct (run C AN tr s0) as [st0 |]; [| done].
    simpl in Hrun. eauto.
Qed.

Lemma step_fire_inv (raw : Z) (st st' : MicroBitLightSensor * list cycle) :
  step C AN (TimeoutFires raw) st = Some st' →
  ∃ s1, is_Some (analogTrigger st.1)
    ∧ analogReady_sample C raw (set_analogTrigger None st.1) = Some s1
    ∧ st' = ((update_averages C s1).2,
             st.2 ++ [mkCycle (chan st.1) (update_averages C s1).1]).
Proof.
  unfold step, analogReady, cycle_of.
  destruct (analogTrigger st.1) as [d |] eqn:Harmed; [| done].
  destruct (analogReady_sample C raw (set_analogTrigger None st.1)) as [s1 |]; [| done].
  intros [= <-]. exists s1. eauto.
Qed.

Lemma valid_cycles_snoc (log : list cycle) (c : cycle) :
  valid_cycles (log ++ [c])
  = (valid_cycles log + if c_valid c then 1 else 0)%nat.
Proof.
  unfold valid_cycles. rewrite list.filter_app, length_app. f_equal.
  rewrite filter_cons, filter_nil. destruct (c_valid c); by case_decide.
Qed.

Lemma rotation_S (n : nat) : rotation C (S n) = rotation C n ++ [Z.of_nat n mod C].
Proof. unfold rotation. by rewrite seq_S, fmap_app. Qed.

Lemma chan_advance (c : Z) :
  0 ≤ c < C → wrap_int (Z.rem (wrap_int (c + 1)) C) = (c + 1) mod C.
Proof using C_pos C_fits.
  intros Hc. unfold INT_MAX in C_fits.
  rewrite (wrap_int_id (c + 1)) by (unfold INT_MIN, INT_MAX; lia).
  rewrite Z.rem_mod_nonneg by lia.
  pose proof (Z.mod_pos_bound (c + 1) C C_pos).
  apply wrap_int_id. unfold INT_MIN, INT_MAX. lia.
Qed.

Lemma in_use_init (map : MatrixMap) (s0 : MicroBitLightSensor) :
  length (results s0) = Z.to_nat C →
  in_use C map s0 (MicroBitLightSensor_ctor C map s0, []).
Proof using C_pos.
  intros Hlen. pose proof (ctor_results map s0 Hlen) as Hres.
  destruct (ctor_fields map s0) as (_ & Hc & _ & Hv & Hp & Ht & Hm & Hb & He & _).
  unfold in_use. simpl fst. simpl snd.
  rewrite Hres, Hc, Hv, Ht, Hm, He, Hb. split_and!; try done.
  - by rewrite length_replicate.
  - intros i r Hr. apply lookup_replicate in Hr as [-> _].
    left. split; [done | apply not_elem_of_nil].
  - by left.
  - simpl. by rewrite app_nil_r.
Qed.

Lemma in_use_start (map : MatrixMap) (s0 s : MicroBitLightSensor) (log : list cycle) :
  in_use C map s0 (s, log) → in_use C map s0 (startSensing AN s, log).
Proof.
  unfold in_use. simpl fst. simpl snd.
  intros (Hlen & Hchan & Hrot & Hpin & Hslots & Hva & Hev & Hmap & Hbus).
  destruct (startSensing_frame s) as (-> & -> & _ & -> & -> & -> & -> & -> & _).
  repeat split; done.
Qed.

Lemma in_use_fire (map : MatrixMap) (s0 : MicroBitLightSensor) (raw : Z)
    (st st' : MicroBitLightSensor * list cycle) :
  in_use C map s0 st → step C AN (TimeoutFires raw) st = Some st' →
  in_use C map s0 st'.
Proof using C_pos C_fits.
  destruct st as [s log]. unfold in_use at 1. simpl fst. simpl snd.
  intros (Hlen & Hchan & Hrot & Hpin & Hslots & Hva & Hev & Hmap & Hbus) Hstep.
  apply step_fire_inv in Hstep as (s1 & _ & Hs1 & ->). simpl in Hs1.
  apply analogReady_sample_spec in Hs1
    as (Hr1 & Hc1 & _ & Hv1 & _ & Ht1 & Hm1 & Hb1 & He1).
  simpl in Hr1, Hc1, Hv1, Ht1, Hm1, Hb1, He1.
  destruct (update_averages_frame s1) as (Hr' & Hc' & _ & Ht' & Hm' & Hb' & _).
  pose proof (update_averages_outcome s1) as Hout. simpl in Hout.
  assert (Hrange : 0 ≤ chan s < C).
  { rewrite Hchan. by apply Z.mod_pos_bound. }
  assert (Hlen1 : length (results s1) = Z.to_nat C).
  { by rewrite Hr1, length_insert. }
  set (v := (update_averages C s1).1) in *.
  assert (Hlast : sampled (log ++ [mkCycle (chan s) v]) = sampled log ++ [chan s]).
  { unfold sampled. by rewrite fmap_app. }
  unfold in_use. simpl fst. simpl snd.
  rewrite Hr', Hc', Ht', Hm', Hb', Hm1, Hb1, Ht1, Hlast.
  rewrite length_app, valid_cycles_snoc. simpl length. simpl c_valid.
  rewrite Nat.add_1_r.
  split_and!; try done.
  - rewrite Hc1, chan_advance by done.
    rewrite Nat2Z.inj_succ, <- Z.add_1_r, Hchan. by rewrite Zplus_mod_idemp_l.
  - by rewrite rotation_S, Hrot, <- Hchan.
  - intros i r Hi. rewrite Hr1 in Hi.
    destruct (decide (i = Z.to_nat (chan s))) as [-> | Hne].
    + rewrite list_lookup_insert_eq in Hi by lia. injection Hi as <-.
      right. split; [apply wrap_u16_range |].
      rewrite Z2Nat.id by lia. apply elem_of_app. right.
      by apply list_elem_of_singleton.
    + rewrite list_lookup_insert_ne in Hi by done.
      destruct (Hslots i r Hi) as [[-> Hnot] | [Hr Hin]].
      * left. split; [done |]. intros Hin.
        apply elem_of_app in Hin as [Hin | Hin]; [done |].
        apply list_elem_of_singleton in Hin. lia.
      * right. split; [done |]. apply elem_of_app. by left.
  - fold v in Hout. destruct v eqn:Hv.
    + right. split; [lia |]. by apply valid_average_in_window.
    + destruct Hout as [-> _]. by rewrite Hv1, Nat.add_0_r.
  - fold v in Hout. destruct v eqn:Hv.
    + destruct Hout as [_ ->]. rewrite He1, Hev.
      rewrite <- app_assoc. f_equal.
      rewrite Nat.add_1_r. by rewrite replicate_S_end.
    + destruct Hout as [_ ->]. by rewrite He1, Hev, Nat.add_0_r.
Qed.

Lemma run_in_use (map : MatrixMap) (s0 : MicroBitLightSensor) (tr : list action)
    (st : MicroBitLightSensor * list cycle) :
  length (results s0) = Z.to_nat C →
  run C AN tr (MicroBitLightSensor_ctor C map s0) = Some st →
  in_use C map s0 st.
Proof using C_pos C_fits.
  intros Hlen. revert tr st. apply run_invariant.
  - by apply in_use_init.
  - intros [| raw] [s log] st' Hinv Hstep.
    + injection Hstep as <-. by apply in_use_start.
    + by eapply in_use_fire.
Qed.

(** An armed timeout always has a sample to deliver to: the next action of
    either kind is defined. *)
Lemma run_progress (map : MatrixMap) (s0 : MicroBitLightSensor) (tr : list action)
    (st : MicroBitLightSensor * list cycle) (raw : Z) :
  length (results s0) = Z.to_nat C →
  run C AN tr (MicroBitLightSensor_ctor C map s0) = Some st →
  is_Some (analogTrigger st.1) →
  is_Some (step C AN (TimeoutFires raw) st).
Proof using C_pos C_fits.
  intros Hlen Hrun Harmed.
  destruct (run_in_use _ _ _ _ Hlen Hrun) as (Hl & Hchan & _ & Hpin & _).
  assert (Hrange : 0 ≤ chan st.1 < C).
  { rewrite Hchan. by apply Z.mod_pos_bound. }
  destruct (analogReady_sample_total raw (set_analogTrigger None st.1)) as [s1 Hs1].
  { by apply Hpin. }
  { simpl. rewrite Hl. lia. }
  destruct Harmed as [d Hd].
  unfold step, analogReady, cycle_of. rewrite Hd, Hs1. eauto.
Qed.

Lemma run_from_none (tr : list action) :
  foldl (fun o a => o ≫= step C AN a) None tr = None.
Proof. induction tr as [| a tr IH]; [done | apply IH]. Qed.

Lemma run_from_cons (a : action) (tr : list action) (st : MicroBitLightSensor * list cycle) :
  run_from C AN (a :: tr) st = step C AN a st ≫= run_from C AN tr.
Proof.
  unfold run_from. simpl. destruct (step C AN a st) as [st1 |]; [done |].
  apply run_from_none.
Qed.

Lemma run_app (tr tr' : list action) (s : MicroBitLightSensor) :
  run C AN (tr ++ tr') s = run C AN tr s ≫= run_from C AN tr'.
Proof.
  unfold run, run_from. rewrite foldl_app.
  destruct (foldl (fun o a => o ≫= step C AN a) (Some (s, [])) tr) as [st |]; [done |].
  apply run_from_none.
Qed.

Lemma step_log_prefix (a : action) (st st' : MicroBitLightSensor * list cycle) :
  step C AN a st = Some st' → st.2 `prefix_of` st'.2.
Proof.
  destruct a as [| raw]; intros Hstep.
  - by injection Hstep as <-.
  - apply step_fire_inv in Hstep as (s1 & _ & _ & ->). simpl.
    by apply prefix_app_r.
Qed.

Lemma run_from_log_prefix (tr : list action) (st st' : MicroBitLightSensor * list cycle) :
  run_from C AN tr st = Some st' → st.2 `prefix_of` st'.2.
Proof.
  revert st. induction tr as [| a tr IH]; intros st Hrun.
  - by injection Hrun as <-.
  - rewrite run_from_cons in Hrun.
    destruct (step C AN a st) as [st1 |] eqn:Hstep; [| done].
    simpl in Hrun. etransitivity; [by eapply step_log_prefix | by apply IH].
Qed.

Lemma in_use_slots_range (map : MatrixMap) (s0 : MicroBitLightSensor)
    (st : MicroBitLightSensor * list cycle) :
  in_use C map s0 st → Forall (fun r => -1 ≤ r ≤ 65535) (results st.1).
Proof.
  intros (_ & _ & _ & _ & Hslots & _). apply Forall_lookup. intros i r Hr.
  destruct (Hslots i r Hr) as [[-> _] | [Hrange _]]; unfold SENTINEL; lia.
Qed.

(** *** read *)

Lemma spec_scale_range (avg : Z) : 0 ≤ spec_scale MINV MAXV avg ≤ 255.
Proof using range_nonempty.
  unfold spec_scale.
  set (c := Z.max (Z.min avg MAXV) MINV).
  assert (Hc : MINV ≤ c ≤ MAXV) by lia.
  replace (MAXV - c + MINV - MINV) with (MAXV - c) by lia.
  rewrite Z.quot_div_nonneg by nia.
  split; [apply Z.div_pos; nia |].
  apply Z.div_le_upper_bound; nia.
Qed.

Lemma read_scaling (avg : Z) :
  let average := Z.max (Z.min avg MAXV) MINV in
  let inverted := wrap_int (wrap_int (MAXV - average) + MINV) in
  wrap_int (0 + wrap_int (wrap_int (wrap_int (inverted - MINV) * wrap_int (255 - 0))
                          ÷ wrap_int (MAXV - MINV)))
  = spec_scale MINV MAXV avg.
Proof using range_nonempty range_min range_max range_scaled.
  intros average inverted.
  pose proof (spec_scale_range avg) as Hrange. unfold spec_scale in Hrange |- *.
  fold average in Hrange |- *.
  assert (Hc : MINV ≤ average ≤ MAXV) by (unfold average; lia).
  unfold INT_MIN, INT_MAX in *.
  assert (Hinv : inverted = MAXV - average + MINV).
  { unfold inverted. rewrite (wrap_int_id (MAXV - average)) by (unfold INT_MIN, INT_MAX; lia).
    apply wrap_int_id. unfold INT_MIN, INT_MAX. lia. }
  rewrite Hinv.
  rewrite (wrap_int_id (MAXV - average + MINV - MINV)) by (unfold INT_MIN, INT_MAX; lia).
  rewrite (wrap_int_id (255 - 0)) by (unfold INT_MIN, INT_MAX; lia).
  rewrite (wrap_int_id (MAXV - MINV)) by (unfold INT_MIN, INT_MAX; lia).
  rewrite (wrap_int_id ((MAXV - average + MINV - MINV) * (255 - 0)))
    by (unfold INT_MIN, INT_MAX; nia).
  replace (255 - 0) with 255 by lia.
  rewrite (wrap_int_id (_ ÷ _)) by (unfold INT_MIN, INT_MAX; lia).
  apply wrap_int_id. unfold INT_MIN, INT_MAX. lia.
Qed.

Lemma read_cases (valid_only : bool) (s : MicroBitLightSensor) :
  let selected := if valid_only then valid_average s else average s in
  read MINV MAXV valid_only s
  = if valid_only && (selected <? 0) then -1 else spec_scale MINV MAXV selected.
Proof using range_nonempty range_min range_max range_scaled.
  intros selected. unfold read. fold selected.
  destruct (valid_only && (selected <? 0)); [done |].
  apply read_scaling.
Qed.

(** ** The properties of the driver *)

(** C1.  For a result set of [C] slots, [update_averages] reports validity
    exactly when every slot lies in the window [0, 450]; a slot that still
    holds the never-sampled sentinel makes the cycle invalid. *)
Theorem update_averages_validity (s : MicroBitLightSensor) :
  length (results s) = Z.to_nat C →
  ((update_averages C s).1 = true ↔ Forall in_window (results s))
  ∧ (SENTINEL ∈ results s → (update_averages C s).1 = false).
Proof.
  intros Hlen.
  assert (Hiff : (update_averages C s).1 = true ↔ Forall in_window (results s)).
  { rewrite update_averages_valid. by apply update_averages_loop_valid. }
  split; [exact Hiff |].
  intros Hin. destruct (update_averages C s).1; [| done].
  assert (Hall : Forall in_window (results s)) by by apply Hiff.
  rewrite list.Forall_forall in Hall. apply Hall in Hin.
  unfold in_window, SENTINEL in Hin. lia.
Qed.

(** C2.  Whenever the armed timeout fires on a constructed sensor the
    conversion completes, stores its sample in the slot of the current
    channel and, valid or not, leaves in [average] the floor of the sum
    over all [C] slots of [max(sample, 0)] divided by [C]: a never-sampled
    slot counts as 0 and is not left out of the divisor. *)
Theorem running_average_recomputed (map : MatrixMap) (s0 s : MicroBitLightSensor)
    (tr : list action) (raw : Z) (log : list cycle) :
  length (results s0) = Z.to_nat C →
  run C AN tr (MicroBitLightSensor_ctor C map s0) = Some (s, log) →
  in_flight s = true →
  ∃ s' c,
    run C AN (tr ++ [TimeoutFires raw]) (MicroBitLightSensor_ctor C map s0)
    = Some (s', log ++ [c])
    ∧ results s' = <[Z.to_nat (chan s) := wrap_u16 raw]> (results s)
    ∧ average s' = clamped_sum (results s') `div` C.
Proof using C_pos C_fits.
  intros Hlen Hrun Harmed.
  destruct (run_progress map s0 tr (s, log) raw Hlen Hrun) as [st' Hstep].
  { unfold in_flight in Harmed. simpl. by destruct (analogTrigger s). }
  assert (Hrun' : run C AN (tr ++ [TimeoutFires raw]) (MicroBitLightSensor_ctor C map s0)
                  = Some st').
  { by rewrite run_snoc, Hrun. }
  pose proof (run_in_use _ _ _ _ Hlen Hrun') as Hinv.
  pose proof (in_use_slots_range _ _ _ Hinv) as Hslots.
  destruct Hinv as (Hlen' & _).
  apply step_fire_inv in Hstep as (s1 & _ & Hs1 & ->).
  simpl in Hs1, Hlen', Hslots.
  apply analogReady_sample_spec in Hs1 as (Hr1 & _). simpl in Hr1.
  destruct (update_averages_frame s1) as (Hr & _).
  eexists _, _. split; [exact Hrun' |]. simpl.
  rewrite Hr in Hlen', Hslots |- *.
  split; [done |]. by apply update_averages_average_spec.
Qed.

(** C3.  [update_averages] copies the fresh running average into
    [valid_average] and raises the readiness event once exactly when every
    slot is in the window; otherwise [valid_average] keeps its value and
    no event is raised.  So a constructed sensor has raised one readiness
    event per valid cycle and none besides. *)
Theorem valid_average_and_readiness :
  (∀ s : MicroBitLightSensor,
     length (results s) = Z.to_nat C →
     let r := update_averages C s in
     (Forall in_window (results s) →
        r.1 = true ∧ valid_average r.2 = average r.2
        ∧ raised r.2 = raised s ++ [ready_event])
     ∧ (¬ Forall in_window (results s) →
        r.1 = false ∧ valid_average r.2 = valid_average s ∧ raised r.2 = raised s))
  ∧ (∀ (map : MatrixMap) (s0 s : MicroBitLightSensor) (tr : list action)
       (log : list cycle),
       length (results s0) = Z.to_nat C →
       run C AN tr (MicroBitLightSensor_ctor C map s0) = Some (s, log) →
       raised s = raised s0 ++ replicate (valid_cycles log) ready_event).
Proof using C_pos C_fits.
  split.
  - intros s Hlen r.
    assert (Hiff : r.1 = true ↔ Forall in_window (results s)).
    { unfold r. rewrite update_averages_valid. by apply update_averages_loop_valid. }
    pose proof (update_averages_outcome s) as Hout. simpl in Hout. fold r in Hout.
    destruct r.1.
    + split; [by intros _ |]. intros Hnot. destruct Hnot. by apply Hiff.
    + split; [| by intros _]. intros Hall. apply Hiff in Hall. done.
  - intros map s0 s tr log Hlen Hrun.
    by destruct (run_in_use _ _ _ _ Hlen Hrun) as (_ & _ & _ & _ & _ & _ & Hev & _).
Qed.


(** C5.  The channel counter starts at 0, stays within [0, C), is the
    number of completed conversions modulo [C], and each conversion moves
    it on by one modulo [C]; the channels sampled are 0, 1, ..., C-1, 0,
    1, ... in this order. *)
Theorem channel_rotation (map : MatrixMap) (s0 s : MicroBitLightSensor)
    (tr : list action) (log : list cycle) :
  length (results s0) = Z.to_nat C →
  run C AN tr (MicroBitLightSensor_ctor C map s0) = Some (s, log) →
  chan (MicroBitLightSensor_ctor C map s0) = 0
  ∧ 0 ≤ chan s < C
  ∧ chan s = Z.of_nat (length log) mod C
  ∧ sampled log = rotation C (length log)
  ∧ chan (startSensing AN s) = chan s
  ∧ ∀ raw st', step C AN (TimeoutFires raw) (s, log) = Some st' →
      chan st'.1 = (chan s + 1) mod C ∧ sampled st'.2 = sampled log ++ [chan s].
Proof using C_pos C_fits.
  intros Hlen Hrun.
  destruct (run_in_use _ _ _ _ Hlen Hrun) as (_ & Hchan & Hrot & _).
  simpl in Hchan, Hrot.
  assert (Hrange : 0 ≤ chan s < C).
  { rewrite Hchan. by apply Z.mod_pos_bound. }
  split_and!; try done; try lia.
  - by destruct (ctor_fields map s0) as (_ & -> & _).
  - by destruct (startSensing_frame s) as (_ & -> & _).
  - intros raw st' Hstep.
    apply step_fire_inv in Hstep as (s1 & _ & Hs1 & ->). simpl in Hs1 |- *.
    apply analogReady_sample_spec in Hs1 as (_ & Hc1 & _). simpl in Hc1.
    destruct (update_averages_frame s1) as (_ & -> & _).
    split; [by rewrite Hc1, chan_advance |].
    unfold sampled. by rewrite fmap_app.
Qed.

(** C6.  Whenever [read] does not return the sentinel it returns the
    selected average clamped into [MIN_VALUE, MAX_VALUE], inverted and
    rescaled with truncating division, a value in [0, 255]; with the range
    [0, 450] and the samples 100, 150 and 125 the running average is 125
    and [read(false)] returns 184. *)
Theorem read_scaled_output :
  (∀ (valid_only : bool) (s : MicroBitLightSensor),
     read MINV MAXV valid_only s ≠ SENTINEL →
     read MINV MAXV valid_only s
     = spec_scale MINV MAXV (if valid_only then valid_average s else average s)
     ∧ 0 ≤ read MINV MAXV valid_only s ≤ 255)
  ∧ ∃ s log,
      run 3 AN scenario (MicroBitLightSensor_ctor 3 microbitMatrixMap storage0)
      = Some (s, log)
      ∧ results s = [100; 150; 125] ∧ average s = 125
      ∧ spec_scale 0 450 125 = 184
      ∧ read 0 450 false s = 184.
Proof using range_nonempty range_min range_max range_scaled.
  split.
  - intros valid_only s Hread. rewrite read_cases in Hread |- *. simpl in Hread |- *.
    destruct (valid_only && _); [done |].
    split; [done | apply spec_scale_range].
  - eexists _, _. split; [vm_compute; reflexivity |]. split_and!; by vm_compute.
Qed.



(** C9, in the form the driver satisfies.  [startSensing] has no guard: in every state, also while
    a cycle is in flight, it runs one complete hand-off for the current
    channel, replaces the sense pin and arms the timeout anew; it leaves
    the result slots, the channel counter and both averages untouched. *)
Theorem startSensing_always_acquires (s : MicroBitLightSensor) :
  let s' := startSensing AN s in
  hw s' = hw s ++ acquire_ops AN (matrixMap s) (chan s) (sensePin s)
  ∧ sensePin s' = Some (columnStart (matrixMap s) + chan s)
  ∧ analogTrigger s' = Some AN
  ∧ in_flight s' = true
  ∧ results s' = results s ∧ chan s' = chan s
  ∧ average s' = average s ∧ valid_average s' = valid_average s.
Proof.
  intros s'.
  destruct (startSensing_frame s) as (Hr & Hc & Ha & Hv & _ & _ & _ & Hp & Ht).
  fold s' in Hr, Hc, Ha, Hv, Hp, Ht.
  unfold in_flight. rewrite Hr, Hc, Ha, Hv, Hp, Ht. split_and!; try done.
  destruct (rows_low_same s) as (_ & Hc0 & _ & _ & Hp0 & _ & Hm0 & _).
  unfold s', startSensing, acquire_ops. simpl. rewrite Hp0, Hc0, Hm0.
  destruct (sensePin s) as [p |]; simpl; rewrite rows_low_hw;
    rewrite <- ?app_assoc; done.
Qed.

(** C10.  In every state of a constructed sensor a result slot is either
    the sentinel, and then its channel has not been sampled, or a 16-bit
    conversion value in [0, 65535], and then it has: a slot is negative
    exactly while its channel is unsampled, and a slot that holds a
    sample holds one in every later state. *)
Theorem result_slots_sentinel_or_sample (map : MatrixMap) (s0 s : MicroBitLightSensor)
    (tr : list action) (log : list cycle) :
  length (results s0) = Z.to_nat C →
  run C AN tr (MicroBitLightSensor_ctor C map s0) = Some (s, log) →
  ∀ (i : nat) (r : Z), results s !! i = Some r →
    ((r = SENTINEL ∧ Z.of_nat i ∉ sampled log)
     ∨ (0 ≤ r ≤ 65535 ∧ Z.of_nat i ∈ sampled log))
    ∧ (r < 0 ↔ Z.of_nat i ∉ sampled log)
    ∧ ∀ tr' s' log',
        run C AN (tr ++ tr') (MicroBitLightSensor_ctor C map s0) = Some (s', log') →
        0 ≤ r → ∃ r', results s' !! i = Some r' ∧ 0 ≤ r' ≤ 65535.
Proof using C_pos C_fits.
  intros Hlen Hrun i r Hi.
  pose proof (run_in_use _ _ _ _ Hlen Hrun) as (Hl & _ & _ & _ & Hslots & _).
  simpl in Hl, Hslots.
  pose proof (Hslots i r Hi) as Hcase. unfold SENTINEL in *.
  split_and!.
  - done.
  - destruct Hcase as [[-> Hnot] | [Hr Hin]]; split; try done; lia.
  - intros tr' s' log' Hrun' Hr.
    pose proof (run_in_use _ _ _ _ Hlen Hrun') as (Hl' & _ & _ & _ & Hslots' & _).
    simpl in Hl', Hslots'.
    rewrite run_app, Hrun in Hrun'. simpl in Hrun'.
    apply run_from_log_prefix in Hrun' as [ext Hext]. simpl in Hext.
    destruct (lookup_lt_is_Some_2 (results s') i) as [r' Hr'].
    { rewrite Hl', <- Hl. by eapply lookup_lt_Some. }
    exists r'. split; [done |].
    destruct (Hslots' i r' Hr') as [[-> Hnot] | [Hrange _]]; [| done].
    destruct Hcase as [[-> _] | [_ Hin]]; [lia |].
    destruct Hnot. rewrite Hext. unfold sampled in *. rewrite fmap_app.
    apply elem_of_app. by left.
Qed.

(** ** Further properties of the driver *)

(** *** The scale of read *)

Lemma spec_scale_antitone (a a' : Z) :
  a ≤ a' → spec_scale MINV MAXV a' ≤ spec_scale MINV MAXV a.
Proof using range_nonempty.
  intros Hle. unfold spec_scale.
  set (c := Z.max (Z.min a MAXV) MINV). set (c' := Z.max (Z.min a' MAXV) MINV).
  assert (Hc : MINV ≤ c ≤ c' ∧ c' ≤ MAXV) by lia.
  replace (MAXV - c + MINV - MINV) with (MAXV - c) by lia.
  replace (MAXV - c' + MINV - MINV) with (MAXV - c') by lia.
  rewrite !Z.quot_div_nonneg by nia.
  apply Z.div_le_mono; nia.
Qed.

Lemma spec_scale_low (a : Z) : a ≤ MINV → spec_scale MINV MAXV a = 255.
Proof using range_nonempty.
  intros Hle. unfold spec_scale.
  replace (Z.max (Z.min a MAXV) MINV) with MINV by lia.
  replace ((MAXV - MINV + MINV - MINV) * 255) with (255 * (MAXV - MINV)) by lia.
  apply Z.quot_mul. lia.
Qed.

Lemma spec_scale_high (a : Z) : MAXV ≤ a → spec_scale MINV MAXV a = 0.
Proof using range_nonempty.
  intros Hle. unfold spec_scale.
  replace (Z.max (Z.min a MAXV) MINV) with MAXV by lia.
  replace ((MAXV - MAXV + MINV - MINV) * 255) with 0 by lia.
  apply Z.quot_0_l. lia.
Qed.

(** X1.  [read] falls as the average it scales rises: a sensor with the
    larger running average reads no brighter, and so does one with the
    larger valid average once both have one. *)
Theorem read_antitone (s s' : MicroBitLightSensor) :
  (average s ≤ average s' → read MINV MAXV false s' ≤ read MINV MAXV false s)
  ∧ (0 ≤ valid_average s ≤ valid_average s' →
     read MINV MAXV true s' ≤ read MINV MAXV true s).
Proof using range_nonempty range_min range_max range_scaled.
  rewrite !read_cases. simpl. split.
  - apply spec_scale_antitone.
  - intros [H0 Hle].
    destruct (Z.ltb_spec (valid_average s) 0); [lia |].
    destruct (Z.ltb_spec (valid_average s') 0); [lia |].
    by apply spec_scale_antitone.
Qed.

(** X2.  [read] saturates: an average at or below [MIN_VALUE] reads 255,
    one at or above [MAX_VALUE] reads 0, and [read(false)] is never the
    sentinel but always within [0, 255]. *)
Theorem read_saturates (valid_only : bool) (s : MicroBitLightSensor) :
  let selected := if valid_only then valid_average s else average s in
  0 ≤ read MINV MAXV false s ≤ 255
  ∧ ((valid_only = true → 0 ≤ selected) →
     (selected ≤ MINV → read MINV MAXV valid_only s = 255)
     ∧ (MAXV ≤ selected → read MINV MAXV valid_only s = 0)).
Proof using range_nonempty range_min range_max range_scaled.
  intros selected. rewrite !read_cases. simpl. fold selected.
  split; [apply spec_scale_range |].
  intros Hsel.
  assert (Hpath : valid_only && (selected <? 0) = false).
  { destruct valid_only; [| done]. simpl.
    destruct (Z.ltb_spec selected 0); [| done]. specialize (Hsel eq_refl). lia. }
  rewrite Hpath. split; [apply spec_scale_low | apply spec_scale_high].
Qed.

(** *** Conversions and the readings *)

(** X3.  Neither a start request nor a conversion that leaves some slot
    outside the window changes the valid average, the events raised or
    what [read(true)] returns: the last valid reading stays. *)
Theorem invalid_conversion_keeps_reading (raw : Z)
    (st st' : MicroBitLightSensor * list cycle) :
  length (results st.1) = Z.to_nat C →
  (step C AN (TimeoutFires raw) st = Some st' →
   ¬ Forall in_window (results st'.1) →
   valid_average st'.1 = valid_average st.1
   ∧ raised st'.1 = raised st.1
   ∧ read MINV MAXV true st'.1 = read MINV MAXV true st.1)
  ∧ (read MINV MAXV true (startSensing AN st.1) = read MINV MAXV true st.1
     ∧ read MINV MAXV false (startSensing AN st.1) = read MINV MAXV false st.1).
Proof.
  intros Hlen. split.
  - intros Hstep Hnot.
    apply step_fire_inv in Hstep as (s1 & _ & Hs1 & ->). simpl in Hs1, Hnot |- *.
    apply analogReady_sample_spec in Hs1 as (Hr1 & _ & _ & Hv1 & _ & _ & _ & _ & He1).
    simpl in Hr1, Hv1, He1.
    destruct (update_averages_frame s1) as (Hr & _). rewrite Hr in Hnot.
    assert (Hlen1 : length (results s1) = Z.to_nat C) by by rewrite Hr1, length_insert.
    pose proof (update_averages_outcome s1) as Hout. simpl in Hout.
    destruct (update_averages C s1).1 eqn:Hvalid.
    + destruct Hnot. rewrite update_averages_valid in Hvalid.
      by apply update_averages_loop_valid in Hvalid.
    + destruct Hout as [Hva Hev]. unfold read. simpl.
      by rewrite Hva, Hev, Hv1, He1.
  - destruct (startSensing_frame st.1) as (_ & _ & Ha & Hv & _).
    unfold read. by rewrite Ha, Hv.
Qed.

(** X4.  A conversion that leaves every slot in the window makes the
    valid average the running average, a value in [0, 450]: right after
    it [read(true)] and [read(false)] agree. *)
Theorem valid_conversion_refreshes_reading (raw : Z)
    (st st' : MicroBitLightSensor * list cycle) :
  length (results st.1) = Z.to_nat C →
  step C AN (TimeoutFires raw) st = Some st' →
  Forall in_window (results st'.1) →
  valid_average st'.1 = average st'.1
  ∧ 0 ≤ average st'.1 ≤ 450
  ∧ read MINV MAXV true st'.1 = read MINV MAXV false st'.1.
Proof using C_pos C_fits.
  intros Hlen Hstep Hall.
  apply step_fire_inv in Hstep as (s1 & _ & Hs1 & ->). simpl in Hs1, Hall |- *.
  apply analogReady_sample_spec in Hs1 as (Hr1 & _). simpl in Hr1.
  destruct (update_averages_frame s1) as (Hr & _). rewrite Hr in Hall.
  assert (Hlen1 : length (results s1) = Z.to_nat C) by by rewrite Hr1, length_insert.
  assert (Hvalid : (update_averages C s1).1 = true).
  { rewrite update_averages_valid. by apply update_averages_loop_valid. }
  pose proof (valid_average_in_window s1 Hlen1 Hvalid) as Hrange.
  pose proof (update_averages_outcome s1) as Hout. simpl in Hout.
  rewrite Hvalid in Hout. destruct Hout as [Hva _].
  split; [done |]. split; [by rewrite <- Hva |].
  unfold read. simpl. rewrite Hva in Hrange |- *.
  destruct (Z.ltb_spec (average (update_averages C s1).2) 0); [lia | done].
Qed.

(** *** The first rotation *)

Lemma rotation_below (n : nat) (x : Z) :
  Z.of_nat n ≤ C → x ∈ rotation C n → 0 ≤ x < Z.of_nat n.
Proof.
  intros Hn Hx. unfold rotation in Hx.
  apply list_elem_of_fmap in Hx as (k & -> & Hk).
  apply elem_of_seq in Hk. rewrite Z.mod_small; lia.
Qed.

Lemma in_use_first_rotation (map : MatrixMap) (s0 : MicroBitLightSensor)
    (tr : list action) (st : MicroBitLightSensor * list cycle) :
  length (results s0) = Z.to_nat C →
  run C AN tr (MicroBitLightSensor_ctor C map s0) = Some st →
  in_use C map s0 st ∧ (Z.of_nat (length st.2) < C → valid_cycles st.2 = 0%nat).
Proof using C_pos C_fits.
  intros Hlen. revert tr st. apply run_invariant.
  - split; [by apply in_use_init | done].
  - intros [| raw] [s log] st' [Hinv Hfirst] Hstep.
    + injection Hstep as <-. split; [by apply in_use_start | done].
    + pose proof (in_use_fire _ _ _ _ _ Hinv Hstep) as Hinv'.
      split; [done |].
      destruct Hinv' as (Hl' & _ & Hrot' & _ & Hslots' & _).
      apply step_fire_inv in Hstep as (s1 & _ & Hs1 & ->).
      simpl in Hfirst, Hl', Hrot', Hslots' |- *.
      rewrite length_app, valid_cycles_snoc. simpl. intros Hshort.
      rewrite Hfirst by lia.
      destruct (update_averages C s1).1 eqn:Hvalid; [| done].
      destruct (update_averages_frame s1) as (Hr & _). rewrite Hr in Hl', Hslots'.
      rewrite update_averages_valid, update_averages_loop_valid in Hvalid by done.
      destruct (lookup_lt_is_Some_2 (results s1) (length log + 1)) as [r Hr1]; [lia |].
      pose proof (Forall_lookup_1 _ _ _ _ Hvalid Hr1) as Hwin.
      destruct (Hslots' _ _ Hr1) as [[-> _] | [_ Hin]].
      * unfold in_window, SENTINEL in Hwin. lia.
      * rewrite Hrot', length_app in Hin. apply rotation_below in Hin; simpl in *; lia.
Qed.

(** X5.  Until [C] conversions have completed no cycle is valid: the valid
    average is still the sentinel, no readiness event has been raised and
    [read(true)] returns the sentinel. *)
Theorem first_rotation_no_reading (map : MatrixMap) (s0 s : MicroBitLightSensor)
    (tr : list action) (log : list cycle) :
  length (results s0) = Z.to_nat C →
  run C AN tr (MicroBitLightSensor_ctor C map s0) = Some (s, log) →
  Z.of_nat (length log) < C →
  valid_cycles log = 0%nat
  ∧ valid_average s = SENTINEL
  ∧ raised s = raised s0
  ∧ read MINV MAXV true s = SENTINEL.
Proof using C_pos C_fits.
  intros Hlen Hrun Hshort.
  destruct (in_use_first_rotation _ _ _ _ Hlen Hrun) as [Hinv Hfirst].
  simpl in Hfirst. specialize (Hfirst Hshort).
  destruct Hinv as (_ & _ & _ & _ & _ & Hva & Hev & _). simpl in Hva, Hev.
  destruct Hva as [[_ Hva] | [Hne _]]; [| done].
  rewrite Hfirst in Hev. simpl in Hev. rewrite app_nil_r in Hev.
  split_and!; try done. unfold read. rewrite Hva. done.
Qed.

(** *** The pin of a conversion *)

Lemma analogReady_sample_hw (raw : Z) (s s1 : MicroBitLightSensor) (pin : PinName) :
  sensePin s = Some pin →
  analogReady_sample C raw s = Some s1 →
  hw s1 = hw s ++ [AnalogIn_read_u16 pin; ADC_disable;
                   DigitalOut_write (columnStart (matrixMap s) + chan s) 1].
Proof.
  intros Hpin. unfold analogReady_sample. rewrite Hpin.
  case_bool_decide; [| done]. intros [= <-]. simpl.
  by rewrite <- !app_assoc.
Qed.



(** *** The converter handle *)

Lemma analog_live_app (l k : list HwOp) :
  analog_live (l ++ k) = analog_live l + analog_live k.
Proof.
  induction l as [| o l IH]; [done |].
  change (analog_live ((o :: l) ++ k))
    with (match o with
          | AnalogIn_new _ => 1 + analog_live (l ++ k)
          | AnalogIn_delete _ => -1 + analog_live (l ++ k)
          | _ => analog_live (l ++ k)
          end).
  change (analog_live (o :: l))
    with (match o with
          | AnalogIn_new _ => 1 + analog_live l
          | AnalogIn_delete _ => -1 + analog_live l
          | _ => analog_live l
          end).
  destruct o; lia.
Qed.

Lemma analog_live_rows (f : nat → PinName) (l : list nat) :
  analog_live ((fun rowCount => DigitalOut_write (f rowCount) 0) <$> l) = 0.
Proof. induction l as [| i l IH]; [done | exact IH]. Qed.

Lemma analog_live_acquire (map : MatrixMap) (c : Z) (old : option PinName) :
  analog_live (acquire_ops AN map c old) = 1 - match old with Some _ => 1 | None => 0 end.
Proof.
  unfold acquire_ops. rewrite analog_live_app, analog_live_rows.
  destruct old; reflexivity.
Qed.

Lemma startSensing_hw (s : MicroBitLightSensor) :
  hw (startSensing AN s) = hw s ++ acquire_ops AN (matrixMap s) (chan s) (sensePin s).
Proof.
  destruct (rows_low_same s) as (_ & Hc0 & _ & _ & Hp0 & _ & Hm0 & _).
  unfold startSensing, acquire_ops. simpl. rewrite Hp0, Hc0, Hm0.
  destruct (sensePin s) as [p |]; simpl; rewrite rows_low_hw;
    rewrite <- ?app_assoc; done.
Qed.

(** X7.  A constructed sensor never holds more than one [AnalogIn]: over
    the primitive operations issued since construction, allocations
    exceed deletions by one while [sensePin] is set and by none while it
    is [NULL]. *)
Theorem at_most_one_AnalogIn (map : MatrixMap) (s0 s : MicroBitLightSensor)
    (tr : list action) (log : list cycle) :
  run C AN tr (MicroBitLightSensor_ctor C map s0) = Some (s, log) →
  ∃ ops, hw s = hw s0 ++ ops
    ∧ analog_live ops = match sensePin s with Some _ => 1 | None => 0 end
    ∧ 0 ≤ analog_live ops ≤ 1.
Proof.
  intros Hrun.
  cut (∃ ops, hw s = hw s0 ++ ops
         ∧ analog_live ops = match sensePin s with Some _ => 1 | None => 0 end).
  { intros (ops & Hhw & Hlive). exists ops. split_and!; try done;
      rewrite Hlive; by destruct (sensePin s). }
  revert tr s log Hrun.
  cut (∀ tr st, run C AN tr (MicroBitLightSensor_ctor C map s0) = Some st →
         ∃ ops, hw st.1 = hw s0 ++ ops
           ∧ analog_live ops = match sensePin st.1 with Some _ => 1 | None => 0 end).
  { intros H tr s log Hrun. exact (H tr (s, log) Hrun). }
  apply (run_invariant (fun st => ∃ ops, hw st.1 = hw s0 ++ ops
           ∧ analog_live ops = match sensePin st.1 with Some _ => 1 | None => 0 end)).
  - destruct (ctor_fields map s0) as (_ & _ & _ & _ & Hp & _ & _ & _ & _ & Hhw).
    exists []. cbn [fst]. rewrite Hp, Hhw, app_nil_r. done.
  - intros [| raw] [s log] st' (ops & Hhw & Hlive) Hstep; cbn [fst] in Hhw, Hlive.
    + injection Hstep as <-. cbn [fst].
      exists (ops ++ acquire_ops AN (matrixMap s) (chan s) (sensePin s)).
      rewrite startSensing_hw, Hhw, <- app_assoc. split; [done |].
      rewrite analog_live_app, analog_live_acquire, Hlive.
      destruct (startSensing_frame s) as (_ & _ & _ & _ & _ & _ & _ & -> & _).
      destruct (sensePin s); lia.
    + apply step_fire_inv in Hstep as (s1 & _ & Hs1 & ->). cbn [fst] in Hs1 |- *.
      destruct (sensePin s) as [pin |] eqn:Hpin.
      2: { unfold analogReady_sample in Hs1. simpl in Hs1. by rewrite Hpin in Hs1. }
      pose proof Hs1 as Hhw1.
      apply (analogReady_sample_hw raw _ s1 pin) in Hhw1; [| done]. simpl in Hhw1.
      apply analogReady_sample_spec in Hs1 as (_ & _ & _ & _ & Hp1 & _).
      simpl in Hp1.
      destruct (update_averages_frame s1) as (_ & _ & Hp' & _ & _ & _ & Hhw').
      eexists. rewrite Hhw', Hhw1, Hhw, <- app_assoc. split; [reflexivity |].
      rewrite analog_live_app, Hlive, Hp', Hp1, Hpin. reflexivity.
Qed.

(** *** The averages in every state *)

Lemma in_use_average (map : MatrixMap) (s0 : MicroBitLightSensor)
    (tr : list action) (st : MicroBitLightSensor * list cycle) :
  length (results s0) = Z.to_nat C →
  run C AN tr (MicroBitLightSensor_ctor C map s0) = Some st →
  in_use C map s0 st
  ∧ (st.2 ≠ [] → average st.1 = clamped_sum (results st.1) `div` C).
Proof using C_pos C_fits.
  intros Hlen. revert tr st. apply run_invariant.
  - split; [by apply in_use_init | done].
  - intros [| raw] [s log] st' [Hinv Havg] Hstep.
    + injection Hstep as <-. split; [by apply in_use_start |].
      cbn [fst snd] in Havg |- *.
      destruct (startSensing_frame s) as (-> & _ & -> & _). done.
    + pose proof (in_use_fire _ _ _ _ _ Hinv Hstep) as Hinv'.
      split; [done |]. intros _.
      pose proof (in_use_slots_range _ _ _ Hinv') as Hslots.
      destruct Hinv' as (Hl' & _).
      apply step_fire_inv in Hstep as (s1 & _ & _ & ->). cbn [fst] in Hl', Hslots |- *.
      destruct (update_averages_frame s1) as (Hr & _).
      rewrite Hr in Hl', Hslots |- *.
      by apply update_averages_average_spec.
Qed.

(** X8.  From the first completed conversion on, in every state (also
    after later start requests) the running average is the floor average
    of the current slots with the sentinel counted as 0, a value in
    [0, 65535]; the valid average is always the sentinel or in [0, 450]. *)
Theorem averages_in_every_state (map : MatrixMap) (s0 s : MicroBitLightSensor)
    (tr : list action) (log : list cycle) :
  length (results s0) = Z.to_nat C →
  run C AN tr (MicroBitLightSensor_ctor C map s0) = Some (s, log) →
  (valid_average s = SENTINEL ∨ 0 ≤ valid_average s ≤ 450)
  ∧ (log ≠ [] →
     average s = clamped_sum (results s) `div` C ∧ 0 ≤ average s ≤ 65535).
Proof using C_pos C_fits.
  intros Hlen Hrun.
  destruct (in_use_average _ _ _ _ Hlen Hrun) as [Hinv Havg].
  pose proof (in_use_slots_range _ _ _ Hinv) as Hslots.
  destruct Hinv as (Hl & _ & _ & _ & _ & Hva & _). cbn [fst snd] in *.
  split; [destruct Hva as [[_ Hva] | [_ Hva]]; eauto |].
  intros Hlog. specialize (Havg Hlog). split; [done |]. rewrite Havg.
  pose proof (clamped_sum_nonneg (results s)) as H0.
  assert (Hb : clamped_sum (results s) ≤ 65535 * Z.of_nat (length (results s))).
  { apply clamped_sum_bound; [lia |]. eapply Forall_impl; [| exact Hslots].
    simpl. intros r Hr. lia. }
  rewrite Hl, Z2Nat.id in Hb by lia.
  split; [apply Z.div_pos; lia |].
  apply Z.div_le_upper_bound; lia.
Qed.

(** *** A slot outside the window *)

Lemma blocked_until_resampled (map : MatrixMap) (s0 : MicroBitLightSensor)
    (j : nat) (r : Z) (tr : list action) :
  ¬ in_window r →
  ∀ st st' : MicroBitLightSensor * list cycle,
    in_use C map s0 st →
    results st.1 !! j = Some r →
    run_from C AN tr st = Some st' →
    Z.of_nat (length st'.2) - Z.of_nat (length st.2) ≤ (Z.of_nat j - chan st.1) mod C →
    results st'.1 !! j = Some r
    ∧ valid_cycles st'.2 = valid_cycles st.2
    ∧ valid_average st'.1 = valid_average st.1.
Proof using C_pos C_fits.
  intros Hbad. induction tr as [| a tr IH]; intros st st' Hinv Hj Hrun Hdist.
  - by injection Hrun as <-.
  - rewrite run_from_cons in Hrun.
    destruct (step C AN a st) as [st1 |] eqn:Hstep; [| done]. simpl in Hrun.
    destruct a as [| raw], st as [s log]; cbn [fst snd] in *.
    + injection Hstep as <-.
      destruct (startSensing_frame s) as (Hr & Hc & _ & Hv & _).
      destruct (IH (startSensing AN s, log) st') as (? & ? & ?); cbn [fst snd];
        rewrite ?Hr, ?Hc; try done; [by apply in_use_start |].
      by rewrite <- Hv.
    + pose proof (in_use_fire _ _ _ _ _ Hinv Hstep) as Hinv1.
      destruct Hinv as (Hl & Hchan & _). cbn [fst snd] in Hl, Hchan.
      assert (Hrange : 0 ≤ chan s < C) by (rewrite Hchan; by apply Z.mod_pos_bound).
      pose proof (lookup_lt_Some _ _ _ Hj) as Hjlt.
      pose proof (run_from_log_prefix _ _ _ Hrun) as Hpre.
      apply prefix_length in Hpre.
      apply step_fire_inv in Hstep as (s1 & _ & Hs1 & ->). cbn [fst snd] in *.
      rewrite length_app in Hpre. simpl in Hpre.
      apply analogReady_sample_spec in Hs1 as (Hr1 & Hc1 & _ & Hv1 & _).
      simpl in Hr1, Hc1, Hv1.
      destruct (update_averages_frame s1) as (Hr & Hc & _).
      assert (Hne : Z.to_nat (chan s) ≠ j).
      { intros <-. rewrite Z2Nat.id, Z.sub_diag, Z.mod_0_l in Hdist by lia. lia. }
      assert (Hj1 : results s1 !! j = Some r).
      { by rewrite Hr1, list_lookup_insert_ne. }
      assert (Hinvalid : (update_averages C s1).1 = false).
      { destruct (update_averages C s1).1 eqn:Hvalid; [| done].
        rewrite update_averages_valid, update_averages_loop_valid in Hvalid
          by by rewrite Hr1, length_insert.
        destruct Hbad. by eapply Forall_lookup_1. }
      pose proof (update_averages_outcome s1) as Hout. simpl in Hout.
      rewrite Hinvalid in Hout. destruct Hout as [Hva _].
      destruct (IH _ st' Hinv1) as (Hres & Hcyc & Hval); cbn [fst snd].
      * by rewrite Hr.
      * done.
      * rewrite Hc, Hc1, chan_advance by done.
        rewrite length_app. simpl length.
        rewrite Zminus_mod_idemp_r.
        replace (Z.of_nat j - (chan s + 1)) with (Z.of_nat j - chan s - 1) by lia.
        rewrite <- Zminus_mod_idemp_l.
        pose proof (Z.mod_pos_bound (Z.of_nat j - chan s) C C_pos) as Hd.
        rewrite Z.mod_small by lia. lia.
      * cbn [fst snd] in Hcyc, Hval.
        split; [done |]. rewrite Hcyc, Hval, valid_cycles_snoc, Hva, Hv1. simpl.
        rewrite Hinvalid. split; [lia | done].
Qed.

(** X9.  A slot outside the window (an out-of-range sample, or the
    sentinel) blocks every cycle until its channel comes round again:
    through the conversions before the one that rewrites it the slot
    stays, no cycle is valid, and [read(true)] still returns what it
    returned. *)
Theorem bad_slot_blocks_rotation (map : MatrixMap) (s0 s s' : MicroBitLightSensor)
    (tr tr' : list action) (log log' : list cycle) (j : nat) (r : Z) :
  length (results s0) = Z.to_nat C →
  run C AN tr (MicroBitLightSensor_ctor C map s0) = Some (s, log) →
  results s !! j = Some r →
  ¬ in_window r →
  run_from C AN tr' (s, log) = Some (s', log') →
  Z.of_nat (length log') - Z.of_nat (length log) ≤ (Z.of_nat j - chan s) mod C →
  results s' !! j = Some r
  ∧ valid_cycles log' = valid_cycles log
  ∧ valid_average s' = valid_average s
  ∧ read MINV MAXV true s' = read MINV MAXV true s.
Proof using C_pos C_fits.
  intros Hlen Hrun Hj Hbad Hrun' Hdist.
  pose proof (run_in_use _ _ _ _ Hlen Hrun) as Hinv.
  destruct (blocked_until_resampled map s0 j r tr' Hbad (s, log) (s', log')
              Hinv Hj Hrun' Hdist) as (Hres & Hcyc & Hval).
  cbn [fst snd] in *. split_and!; try done.
  unfold read. by rewrite Hval.
Qed.

(** *** A rotation of samples inside the window *)

Lemma same_residue (i n n0 : Z) :
  0 ≤ i < C → (i - n0) mod C = n - n0 → i = n mod C.
Proof using C_pos.
  intros Hi Heq.
  pose proof (Z.div_mod (i - n0) C ltac:(lia)) as Hdiv. rewrite Heq in Hdiv.
  replace n with (i + - ((i - n0) `div` C) * C) by lia.
  rewrite Z_mod_plus_full. symmetry. apply Z.mod_small. lia.
Qed.

Lemma fresh_rotation (map : MatrixMap) (s0 : MicroBitLightSensor) (n0 : Z)
    (tr : list action) :
  Forall in_window_action tr →
  ∀ st st' : MicroBitLightSensor * list cycle,
    in_use C map s0 st →
    n0 ≤ Z.of_nat (length st.2) →
    (∀ (i : nat) (r : Z), results st.1 !! i = Some r →
       (Z.of_nat i - n0) mod C < Z.of_nat (length st.2) - n0 → in_window r) →
    (C ≤ Z.of_nat (length st.2) - n0 → valid_average st.1 = average st.1) →
    run_from C AN tr st = Some st' →
    in_use C map s0 st'
    ∧ (∀ (i : nat) (r : Z), results st'.1 !! i = Some r →
         (Z.of_nat i - n0) mod C < Z.of_nat (length st'.2) - n0 → in_window r)
    ∧ (C ≤ Z.of_nat (length st'.2) - n0 → valid_average st'.1 = average st'.1).
Proof using C_pos C_fits.
  induction 1 as [| a tr Ha _ IH]; intros st st' Hinv Hn0 Hslots Hfresh Hrun.
  - by injection Hrun as <-.
  - rewrite run_from_cons in Hrun.
    destruct (step C AN a st) as [st1 |] eqn:Hstep; [| done]. simpl in Hrun.
    destruct a as [| raw], st as [s log]; cbn [fst snd] in *.
    + injection Hstep as <-.
      destruct (startSensing_frame s) as (Hr & _ & Hav & Hv & _).
      apply (IH (startSensing AN s, log) st'); cbn [fst snd];
        rewrite ?Hr, ?Hav, ?Hv; try done. by apply in_use_start.
    + pose proof (in_use_fire _ _ _ _ _ Hinv Hstep) as Hinv1.
      destruct Hinv as (Hl & Hchan & _). cbn [fst snd] in Hl, Hchan.
      assert (Hrange : 0 ≤ chan s < C) by (rewrite Hchan; by apply Z.mod_pos_bound).
      apply step_fire_inv in Hstep as (s1 & _ & Hs1 & ->). cbn [fst snd] in *.
      apply analogReady_sample_spec in Hs1 as (Hr1 & _). simpl in Hr1.
      destruct (update_averages_frame s1) as (Hr & _).
      assert (Hlen1 : length (results s1) = Z.to_nat C) by by rewrite Hr1, length_insert.
      assert (Hslots1 : ∀ (i : nat) (r : Z), results s1 !! i = Some r →
                (Z.of_nat i - n0) mod C < Z.of_nat (length log) + 1 - n0 → in_window r).
      { intros i r Hi Hlt. rewrite Hr1 in Hi.
        destruct (decide (i = Z.to_nat (chan s))) as [-> | Hne].
        - rewrite list_lookup_insert_eq in Hi by lia. by injection Hi as <-.
        - rewrite list_lookup_insert_ne in Hi by done.
          apply (Hslots i r Hi).
          destruct (decide ((Z.of_nat i - n0) mod C = Z.of_nat (length log) - n0))
            as [Heq | Hneq]; [| lia].
          apply same_residue in Heq; [lia |].
          apply lookup_lt_Some in Hi. lia. }
      apply (IH _ st' Hinv1); cbn [fst snd]; rewrite ?length_app; simpl length.
      * lia.
      * intros i r Hi Hlt. rewrite Hr in Hi. apply (Hslots1 i r Hi). lia.
      * intros Hfull.
        assert (Hall : Forall in_window (results s1)).
        { apply Forall_lookup. intros i r Hi. apply (Hslots1 i r Hi).
          pose proof (Z.mod_pos_bound (Z.of_nat i - n0) C C_pos). lia. }
        pose proof (update_averages_outcome s1) as Hout. simpl in Hout.
        rewrite <- update_averages_loop_valid, <- update_averages_valid in Hall by done.
        rewrite Hall in Hout. by destruct Hout as [-> _].
      * done.
Qed.

(** X10.  [C] conversions in a row that each bring a sample inside the
    window make a reading available, whatever came before: afterwards
    every slot is in the window, the valid average is the running average,
    a value in [0, 450], and [read(true)] agrees with [read(false)]. *)
Theorem full_rotation_gives_reading (map : MatrixMap) (s0 s s' : MicroBitLightSensor)
    (tr tr' : list action) (log log' : list cycle) :
  length (results s0) = Z.to_nat C →
  run C AN tr (MicroBitLightSensor_ctor C map s0) = Some (s, log) →
  Forall in_window_action tr' →
  run_from C AN tr' (s, log) = Some (s', log') →
  C ≤ Z.of_nat (length log') - Z.of_nat (length log) →
  Forall in_window (results s')
  ∧ valid_average s' = average s'
  ∧ 0 ≤ valid_average s' ≤ 450
  ∧ read MINV MAXV true s' = read MINV MAXV false s'.
Proof using C_pos C_fits.
  intros Hlen Hrun Hgood Hrun' Hfull.
  pose proof (run_in_use _ _ _ _ Hlen Hrun) as Hinv.
  destruct (fresh_rotation map s0 (Z.of_nat (length log)) tr' Hgood (s, log) (s', log')
              Hinv) as (Hinv' & Hslots & Hfresh); cbn [fst snd]; try done; try lia.
  { intros i r _ Hlt.
    pose proof (Z.mod_pos_bound (Z.of_nat i - Z.of_nat (length log)) C C_pos). lia. }
  cbn [fst snd] in Hslots, Hfresh. specialize (Hfresh Hfull).
  assert (Hall : Forall in_window (results s')).
  { apply Forall_lookup. intros i r Hi. apply (Hslots i r Hi).
    pose proof (Z.mod_pos_bound (Z.of_nat i - Z.of_nat (length log)) C C_pos). lia. }
  assert (Hrun2 : run C AN (tr ++ tr') (MicroBitLightSensor_ctor C map s0) = Some (s', log')).
  { by rewrite run_app, Hrun. }
  destruct (in_use_average _ _ _ _ Hlen Hrun2) as [(Hl & _) Havg].
  cbn [fst snd] in Hl, Havg.
  assert (Hne : log' ≠ []) by (intros ->; simpl in Hfull; lia).
  specialize (Havg Hne).
  assert (Hrange : 0 ≤ average s' ≤ 450).
  { rewrite Havg.
    pose proof (clamped_sum_nonneg (results s')) as H0.
    assert (Hb : clamped_sum (results s') ≤ 450 * Z.of_nat (length (results s'))).
    { apply clamped_sum_bound; [lia |]. eapply Forall_impl; [| exact Hall].
      unfold in_window. simpl. intros r Hr. lia. }
    rewrite Hl, Z2Nat.id in Hb by lia.
    split; [apply Z.div_pos; lia |]. apply Z.div_le_upper_bound; lia. }
  split_and!; try done; try (rewrite Hfresh; lia).
  unfold read. simpl. rewrite Hfresh.
  destruct (Z.ltb_spec (average s') 0); [lia | done].
Qed.

(** *** Construction, use and destruction *)

Lemma ignore_listen (ls : list Listener) :
  (∀ l, l ∈ ls →
     listener_matches MICROBIT_ID_DISPLAY MICROBIT_DISPLAY_EVT_LIGHT_SENSE
       startSensing_handler l = false) →
  ignore MICROBIT_ID_DISPLAY MICROBIT_DISPLAY_EVT_LIGHT_SENSE startSensing_handler
    (listen sense_listener ls) = ls.
Proof.
  intros Hother. unfold ignore, listen. rewrite list.filter_app.
  rewrite (filter_cons _ sense_listener), filter_nil.
  rewrite decide_False by (intros Hno; by apply Hno).
  rewrite app_nil_r.
  induction ls as [| l ls IH]; [done |].
  rewrite filter_cons, decide_True.
  - f_equal. apply IH. intros l' Hl'. apply Hother. by right.
  - rewrite (Hother l) by (by left). simpl. tauto.
Qed.

(** X14.  Constructing the sensor, using it and destroying it leaves the
    default event bus with the listeners it had before, provided none of
    them was registered for the display's slot-offered event with the
    same handler; without a default event bus there is still none. *)
Theorem construct_use_destroy_restores_bus (map : MatrixMap)
    (s0 s : MicroBitLightSensor) (tr : list action) (log : list cycle) :
  length (results s0) = Z.to_nat C →
  run C AN tr (MicroBitLightSensor_ctor C map s0) = Some (s, log) →
  match defaultEventBus s0 with
  | Some ls =>
    (∀ l, l ∈ ls →
       listener_matches MICROBIT_ID_DISPLAY MICROBIT_DISPLAY_EVT_LIGHT_SENSE
         startSensing_handler l = false) →
    defaultEventBus s = Some (ls ++ [sense_listener])
    ∧ defaultEventBus (MicroBitLightSensor_dtor s) = Some ls
  | None =>
    defaultEventBus s = None ∧ defaultEventBus (MicroBitLightSensor_dtor s) = None
  end.
Proof using C_pos C_fits.
  intros Hlen Hrun.
  destruct (run_in_use _ _ _ _ Hlen Hrun) as (_ & _ & _ & _ & _ & _ & _ & _ & Hbus).
  cbn [fst] in Hbus. unfold MicroBitLightSensor_dtor. rewrite Hbus.
  destruct (defaultEventBus s0) as [ls |]; simpl; [| done].
  intros Hother. split; [done |]. simpl. f_equal. by apply ignore_listen.
Qed.

End Properties.

(** ** Properties of the Eddystone service *)

Lemma land_15_mod (x : Z) : Z.land x 15 = x mod 16.
Proof. exact (Z.land_ones x 4 ltac:(lia)). Qed.

Lemma heap_live_app (l k : list EddyOp) : heap_live (l ++ k) = heap_live l + heap_live k.
Proof.
  induction l as [| o l IH]; [done |].
  change (heap_live ((o :: l) ++ k))
    with (match o with
          | heap_malloc _ => 1 + heap_live (l ++ k)
          | heap_free => -1 + heap_live (l ++ k)
          | _ => heap_live (l ++ k)
          end).
  change (heap_live (o :: l))
    with (match o with
          | heap_malloc _ => 1 + heap_live l
          | heap_free => -1 + heap_live l
          | _ => heap_live l
          end).
  destruct o; lia.
Qed.

Lemma heap_live_prints (f : nat → Printed) (l : list nat) :
  heap_live ((fun i => serial_printf (f i)) <$> l) = 0.
Proof. induction l as [| i l IH]; [done | exact IH]. Qed.

Lemma last_service_data_app (l k : list EddyOp) :
  last_service_data (l ++ k)
  = foldl (fun acc o =>
             match o with
             | gap_accumulateData SERVICE_DATA data len => Some (data, len)
             | _ => acc
             end) (last_service_data l) k.
Proof. unfold last_service_data. by rewrite foldl_app. Qed.

Lemma last_service_data_prints (f : nat → Printed) (l : list nat) (acc : option (list Z * Z)) :
  foldl (fun acc o =>
           match o with
           | gap_accumulateData SERVICE_DATA data len => Some (data, len)
           | _ => acc
           end) acc ((fun i => serial_printf (f i)) <$> l) = acc.
Proof. revert acc. induction l as [| i l IH]; intros acc; [done | apply IH]. Qed.

Section EddyStoneProperties.

Variable EDDYSTONE_NUM_EDDYSTONE_FRAMES : Z.
Variable MICROBIT_DBG : bool.

Abbreviation N := EDDYSTONE_NUM_EDDYSTONE_FRAMES.

(** The rotation has one, two or three frames. *)
Hypothesis N_pos : 0 < N.
Hypothesis N_max : N ≤ 3.

Lemma selected_frame_defined (a : Answers) (frame : Z) :
  0 ≤ frame < N → is_Some (selected_frame a frame).
Proof using N_max.
  intros Hf. unfold selected_frame.
  destruct (Z.eqb_spec frame 0); [eauto |].
  destruct (Z.eqb_spec frame 1); [eauto |].
  destruct (Z.eqb_spec frame 2); [eauto | lia].
Qed.

Lemma next_frame (c : Z) :
  0 ≤ c < N → wrap_int (Z.rem (wrap_int (c + 1)) N) = (c + 1) mod N.
Proof using N_pos N_max.
  intros Hc.
  rewrite (wrap_int_id (c + 1)) by (unfold INT_MIN, INT_MAX; lia).
  rewrite Z.rem_mod_nonneg by lia.
  pose proof (Z.mod_pos_bound (c + 1) N N_pos).
  apply wrap_int_id. unfold INT_MIN, INT_MAX. lia.
Qed.

(** What one call does when [malloc] succeeds. *)
Lemma updateAdvertisementPacket_spec (a : Answers) (s : MicroBitEddyStoneService) :
  0 ≤ currentFrame s < N → malloc_ok a = true →
  ∃ f s',
    updateAdvertisementPacket N MICROBIT_DBG a s = Some s'
    ∧ currentFrame s' = (currentFrame s + 1) mod N
    ∧ selected_frame a (currentFrame s') = Some f
    ∧ namespaceID s' = namespaceID s ∧ instance s' = instance s
    ∧ ∃ ops, eddy_ops s' = eddy_ops s ++ ops
        ∧ heap_live ops = 0
        ∧ ∀ acc, foldl (fun acc o =>
                          match o with
                          | gap_accumulateData SERVICE_DATA data len => Some (data, len)
                          | _ => acc
                          end) acc ops = Some (fd_buffer f, fd_length f).
Proof using N_pos N_max.
  intros Hc Hok.
  pose proof (Z.mod_pos_bound (currentFrame s + 1) N N_pos) as Hnext.
  destruct (selected_frame_defined a ((currentFrame s + 1) mod N) Hnext) as [f Hf].
  exists f. unfold updateAdvertisementPacket.
  rewrite next_frame, Hf, Hok by done.
  eexists. split; [reflexivity |].
  destruct MICROBIT_DBG; simpl; (split_and!; try done);
    eexists; (split; [rewrite <- ?app_assoc; reflexivity |]).
  - split.
    + unfold debug_output. rewrite !heap_live_app, !heap_live_prints. reflexivity.
    + intros acc. unfold debug_output. rewrite <- !app_assoc. simpl.
      rewrite foldl_app, last_service_data_prints. reflexivity.
  - split; [reflexivity | done].
Qed.

Lemma advertise_snoc (answers : list Answers) (a : Answers) (s : MicroBitEddyStoneService) :
  advertise N MICROBIT_DBG (answers ++ [a]) s
  = advertise N MICROBIT_DBG answers s ≫= updateAdvertisementPacket N MICROBIT_DBG a.
Proof. unfold advertise. by rewrite foldl_app. Qed.

(** What construction followed by further packets reaches. *)
Lemma advertise_invariant (url ns inst : ManagedString) (a0 : Answers)
    (s0 : MicroBitEddyStoneService) (answers : list Answers) :
  malloc_ok a0 = true →
  Forall (fun a => malloc_ok a = true) answers →
  ∃ s f ops,
    MicroBitEddyStoneService_ctor N MICROBIT_DBG url ns inst a0 s0
      ≫= advertise N MICROBIT_DBG answers = Some s
    ∧ currentFrame s = (1 + Z.of_nat (length answers)) mod N
    ∧ selected_frame (List.last answers a0) (currentFrame s) = Some f
    ∧ last_service_data (eddy_ops s) = Some (fd_buffer f, fd_length f)
    ∧ eddy_ops s = eddy_ops s0 ++ ops
    ∧ heap_live ops = 0
    ∧ namespaceID s = ns ∧ instance s = inst.
Proof using N_pos N_max.
  intros Hok0. induction answers as [| a answers IH] using rev_ind; intros Hok.
  - set (s1 := eddy_emit (gap_setAdvertisingInterval 100)
                 (eddy_emit gap_setAdvertisingType_NON_CONNECTABLE_UNDIRECTED
                    (mkEddy ns inst 0
                       (eddy_ops s0 ++ [serial_printf (print_config url ns inst)])))).
    destruct (updateAdvertisementPacket_spec a0 s1)
      as (f & s' & Hupd & Hcur & Hsel & Hns & Hin & ops & Hops & Hlive & Hdata);
      [simpl; lia | done |].
    exists (eddy_emit gap_startAdvertising s'), f.
    exists ([serial_printf (print_config url ns inst);
             gap_setAdvertisingType_NON_CONNECTABLE_UNDIRECTED;
             gap_setAdvertisingInterval 100] ++ ops ++ [gap_startAdvertising]).
    unfold MicroBitEddyStoneService_ctor. simpl. fold s1. rewrite Hupd. simpl.
    split_and!; try done.
    + rewrite !last_service_data_app, Hops, last_service_data_app, Hdata. reflexivity.
    + rewrite Hops. unfold s1. simpl. rewrite <- !app_assoc. reflexivity.
    + rewrite !heap_live_app, Hlive. reflexivity.
  - apply Forall_app in Hok as [Hok Ha]. apply Forall_inv in Ha.
    destruct (IH Hok) as (s & f & ops & Hrun & Hcur & _ & _ & Hops & Hlive & Hns & Hin).
    destruct (updateAdvertisementPacket_spec a s)
      as (f' & s' & Hupd & Hcur' & Hsel' & Hns' & Hin' & ops' & Hops' & Hlive' & Hdata');
      [rewrite Hcur; by apply Z.mod_pos_bound | done |].
    exists s', f', (ops ++ ops').
    destruct (MicroBitEddyStoneService_ctor N MICROBIT_DBG url ns inst a0 s0)
      as [s1 |]; [| done].
    simpl in Hrun |- *. rewrite advertise_snoc, Hrun. simpl.
    rewrite last_last.
    split_and!; try done; try congruence.
    + rewrite Hcur', Hcur, length_app, Nat2Z.inj_add. simpl.
      rewrite Zplus_mod_idemp_l. f_equal. lia.
    + rewrite Hops', last_service_data_app. apply Hdata'.
    + by rewrite Hops', Hops, <- app_assoc.
    + rewrite heap_live_app. lia.
Qed.

(** X11.  With one to three frames and [malloc] succeeding, construction
    and every later call of [updateAdvertisementPacket] complete; the
    frame counter after construction and [n] further calls is
    [(1 + n) mod N], so the first packet carries frame 1 when there is more
    than one frame, and the service data advertised last is the frame of
    that number as answered at the last call. *)
Theorem frames_rotate (url ns inst : ManagedString) (a0 : Answers)
    (s0 : MicroBitEddyStoneService) (answers : list Answers) :
  malloc_ok a0 = true →
  Forall (fun a => malloc_ok a = true) answers →
  ∃ s f,
    MicroBitEddyStoneService_ctor N MICROBIT_DBG url ns inst a0 s0
      ≫= advertise N MICROBIT_DBG answers = Some s
    ∧ 0 ≤ currentFrame s < N
    ∧ currentFrame s = (1 + Z.of_nat (length answers)) mod N
    ∧ selected_frame (List.last answers a0) (currentFrame s) = Some f
    ∧ last_service_data (eddy_ops s) = Some (fd_buffer f, fd_length f).
Proof using N_pos N_max.
  intros Hok0 Hok.
  destruct (advertise_invariant url ns inst a0 s0 answers Hok0 Hok)
    as (s & f & ops & Hrun & Hcur & Hsel & Hdata & _).
  pose proof (Z.mod_pos_bound (1 + Z.of_nat (length answers)) N N_pos) as Hrange.
  rewrite <- Hcur in Hrange. exists s, f. split_and!; try done; lia.
Qed.

(** X12.  Over construction and any number of completed calls every
    buffer allocated for a frame has been freed again: among the calls
    made since construction began, [malloc] and [free] balance. *)
Theorem frame_buffers_freed (url ns inst : ManagedString) (a0 : Answers)
    (s0 : MicroBitEddyStoneService) (answers : list Answers) :
  malloc_ok a0 = true →
  Forall (fun a => malloc_ok a = true) answers →
  ∃ s ops,
    MicroBitEddyStoneService_ctor N MICROBIT_DBG url ns inst a0 s0
      ≫= advertise N MICROBIT_DBG answers = Some s
    ∧ eddy_ops s = eddy_ops s0 ++ ops
    ∧ heap_live ops = 0.
Proof using N_pos N_max.
  intros Hok0 Hok.
  destruct (advertise_invariant url ns inst a0 s0 answers Hok0 Hok)
    as (s & f & ops & Hrun & _ & _ & _ & Hops & Hlive & _).
  by exists s, ops.
Qed.

End EddyStoneProperties.

(** X13.  The two service-id bytes are the low four bits of the 16-bit
    encoded UID and its high byte: bits 4 to 7 are dropped, so the bytes
    give the encoded UID back exactly when its low byte is below 16. *)
Theorem uid_bytes_drop_a_nibble (e : Z) :
  let x := wrap_u16 e in
  uid_bytes x = [x mod 16; x `div` 256]
  ∧ 0 ≤ x mod 16 < 16 ∧ 0 ≤ x `div` 256 < 256
  ∧ (uid_value (uid_bytes x) = x ↔ x mod 256 < 16).
Proof.
  intros x. pose proof (wrap_u16_range e) as Hx. fold x in Hx.
  assert (Hlo : 0 ≤ x mod 16 < 16) by (apply Z.mod_pos_bound; lia).
  assert (Hhi : 0 ≤ x `div` 256 < 256) by (Z.div_mod_to_equations; lia).
  assert (Hbytes : uid_bytes x = [x mod 16; x `div` 256]).
  { unfold uid_bytes, wrap_u8. rewrite land_15_mod, Z.shiftr_div_pow2 by lia.
    change (2 ^ 8) with 256.
    by rewrite (Z.mod_small (x mod 16) 256), (Z.mod_small (x `div` 256) 256) by lia. }
  split_and!; try done; try lia.
  rewrite Hbytes. unfold uid_value. simpl.
  Z.div_mod_to_equations. lia.
Qed.

(** ** The properties on the micro:bit configuration

    Three channels, a settle time of 4000 microseconds and the sensing
    range [0, 450]. *)

Lemma update_averages_validity_witness :
  length (results sensor0) = Z.to_nat 3
  ∧ (((update_averages 3 sensor0).1 = true ↔ Forall in_window (results sensor0))
     ∧ (SENTINEL ∈ results sensor0 → (update_averages 3 sensor0).1 = false)).
Proof.
  split; [reflexivity |].
  apply (update_averages_validity 3 sensor0). reflexivity.
Defined.

Lemma running_average_recomputed_witness :
  0 < 3 ∧ 3 * 65535 ≤ INT_MAX
  ∧ length (results storage_bus) = Z.to_nat 3
  ∧ run 3 4000 [StartSensing] (MicroBitLightSensor_ctor 3 microbitMatrixMap storage_bus)
    = Some (sensor_settling, [])
  ∧ in_flight sensor_settling = true
  ∧ ∃ s' c,
      run 3 4000 ([StartSensing] ++ [TimeoutFires 100])
        (MicroBitLightSensor_ctor 3 microbitMatrixMap storage_bus)
      = Some (s', [] ++ [c])
      ∧ results s' = <[Z.to_nat (chan sensor_settling) := wrap_u16 100]>
                       (results sensor_settling)
      ∧ average s' = clamped_sum (results s') `div` 3.
Proof.
  assert (H1 : 0 < 3) by lia.
  assert (H2 : 3 * 65535 ≤ INT_MAX) by (unfold INT_MAX; lia).
  assert (H3 : length (results storage_bus) = Z.to_nat 3) by reflexivity.
  assert (H4 : run 3 4000 [StartSensing]
                 (MicroBitLightSensor_ctor 3 microbitMatrixMap storage_bus)
               = Some (sensor_settling, [])) by (vm_compute; reflexivity).
  assert (H5 : in_flight sensor_settling = true) by reflexivity.
  refine (conj H1 (conj H2 (conj H3 (conj H4 (conj H5 _))))).
  exact (running_average_recomputed 3 4000 H1 H2 microbitMatrixMap storage_bus
           sensor_settling [StartSensing] 100 [] H3 H4 H5).
Defined.

Lemma valid_average_and_readiness_witness :
  let s := set_results [100; 150; 125] sensor0 in
  0 < 3 ∧ 3 * 65535 ≤ INT_MAX
  ∧ length (results s) = Z.to_nat 3
  ∧ Forall in_window (results s)
  ∧ length (results storage0) = Z.to_nat 3
  ∧ run 3 4000 scenario_then_invalid
      (MicroBitLightSensor_ctor 3 microbitMatrixMap storage0)
    = Some (after_invalid.1, after_invalid.2)
  ∧ ((update_averages 3 s).1 = true
     ∧ valid_average (update_averages 3 s).2 = average (update_averages 3 s).2
     ∧ raised (update_averages 3 s).2 = raised s ++ [ready_event])
  ∧ raised after_invalid.1
    = raised storage0 ++ replicate (valid_cycles after_invalid.2) ready_event.
Proof.
  intros s.
  assert (H1 : 0 < 3) by lia.
  assert (H2 : 3 * 65535 ≤ INT_MAX) by (unfold INT_MAX; lia).
  assert (H3 : length (results s) = Z.to_nat 3) by reflexivity.
  assert (H4 : Forall in_window (results s)).
  { unfold in_window. repeat constructor; vm_compute; discriminate. }
  assert (H5 : length (results storage0) = Z.to_nat 3) by reflexivity.
  assert (H6 : run 3 4000 scenario_then_invalid
                 (MicroBitLightSensor_ctor 3 microbitMatrixMap storage0)
               = Some (after_invalid.1, after_invalid.2)) by (vm_compute; reflexivity).
  refine (conj H1 (conj H2 (conj H3 (conj H4 (conj H5 (conj H6 _)))))).
  destruct (valid_average_and_readiness 3 4000 H1 H2) as [Hstate Hrun].
  split.
  - exact (proj1 (Hstate s H3) H4).
  - exact (Hrun microbitMatrixMap storage0 after_invalid.1 scenario_then_invalid
             after_invalid.2 H5 H6).
Defined.


Lemma channel_rotation_witness :
  0 < 3 ∧ 3 * 65535 ≤ INT_MAX
  ∧ length (results storage0) = Z.to_nat 3
  ∧ run 3 4000 scenario_then_invalid
      (MicroBitLightSensor_ctor 3 microbitMatrixMap storage0)
    = Some (after_invalid.1, after_invalid.2)
  ∧ (chan (MicroBitLightSensor_ctor 3 microbitMatrixMap storage0) = 0
     ∧ 0 ≤ chan after_invalid.1 < 3
     ∧ chan after_invalid.1 = Z.of_nat (length after_invalid.2) mod 3
     ∧ sampled after_invalid.2 = rotation 3 (length after_invalid.2)
     ∧ chan (startSensing 4000 after_invalid.1) = chan after_invalid.1
     ∧ ∀ raw st',
         step 3 4000 (TimeoutFires raw) (after_invalid.1, after_invalid.2) = Some st' →
         chan st'.1 = (chan after_invalid.1 + 1) mod 3
         ∧ sampled st'.2 = sampled after_invalid.2 ++ [chan after_invalid.1]).
Proof.
  assert (H1 : 0 < 3) by lia.
  assert (H2 : 3 * 65535 ≤ INT_MAX) by (unfold INT_MAX; lia).
  assert (H3 : length (results storage0) = Z.to_nat 3) by reflexivity.
  assert (H4 : run 3 4000 scenario_then_invalid
                 (MicroBitLightSensor_ctor 3 microbitMatrixMap storage0)
               = Some (after_invalid.1, after_invalid.2)) by (vm_compute; reflexivity).
  refine (conj H1 (conj H2 (conj H3 (conj H4 _)))).
  exact (channel_rotation 3 4000 H1 H2 microbitMatrixMap storage0
           after_invalid.1 scenario_then_invalid after_invalid.2 H3 H4).
Defined.

Lemma read_scaled_output_witness :
  0 < 450 ∧ INT_MIN ≤ 0 ∧ 450 ≤ INT_MAX ∧ (450 - 0) * 255 ≤ INT_MAX
  ∧ ((∀ (valid_only : bool) (s : MicroBitLightSensor),
        read 0 450 valid_only s ≠ SENTINEL →
        read 0 450 valid_only s
        = spec_scale 0 450 (if valid_only then valid_average s else average s)
        ∧ 0 ≤ read 0 450 valid_only s ≤ 255)
     ∧ ∃ s log,
         run 3 4000 scenario (MicroBitLightSensor_ctor 3 microbitMatrixMap storage0)
         = Some (s, log)
         ∧ results s = [100; 150; 125] ∧ average s = 125
         ∧ spec_scale 0 450 125 = 184
         ∧ read 0 450 false s = 184).
Proof.
  assert (R1 : 0 < 450) by lia.
  assert (R2 : INT_MIN ≤ 0) by (unfold INT_MIN; lia).
  assert (R3 : 450 ≤ INT_MAX) by (unfold INT_MAX; lia).
  assert (R4 : (450 - 0) * 255 ≤ INT_MAX) by (unfold INT_MAX; lia).
  refine (conj R1 (conj R2 (conj R3 (conj R4 _)))).
  exact (read_scaled_output 4000 0 450 R1 R2 R3 R4).
Defined.


Lemma result_slots_sentinel_or_sample_witness :
  0 < 3 ∧ 3 * 65535 ≤ INT_MAX
  ∧ length (results storage0) = Z.to_nat 3
  ∧ run 3 4000 [StartSensing; TimeoutFires 100]
      (MicroBitLightSensor_ctor 3 microbitMatrixMap storage0)
    = Some (after_first.1, after_first.2)
  ∧ results after_first.1 !! 0%nat = Some 100
  ∧ (((100 = SENTINEL ∧ Z.of_nat 0 ∉ sampled after_first.2)
      ∨ (0 ≤ 100 ≤ 65535 ∧ Z.of_nat 0 ∈ sampled after_first.2))
     ∧ (100 < 0 ↔ Z.of_nat 0 ∉ sampled after_first.2)
     ∧ ∀ tr' s' log',
         run 3 4000 ([StartSensing; TimeoutFires 100] ++ tr')
           (MicroBitLightSensor_ctor 3 microbitMatrixMap storage0) = Some (s', log') →
         0 ≤ 100 → ∃ r', results s' !! 0%nat = Some r' ∧ 0 ≤ r' ≤ 65535).
Proof.
  assert (H1 : 0 < 3) by lia.
  assert (H2 : 3 * 65535 ≤ INT_MAX) by (unfold INT_MAX; lia).
  assert (H3 : length (results storage0) = Z.to_nat 3) by reflexivity.
  assert (H4 : run 3 4000 [StartSensing; TimeoutFires 100]
                 (MicroBitLightSensor_ctor 3 microbitMatrixMap storage0)
               = Some (after_first.1, after_first.2)) by (vm_compute; reflexivity).
  assert (H5 : results after_first.1 !! 0%nat = Some 100) by reflexivity.
  refine (conj H1 (conj H2 (conj H3 (conj H4 (conj H5 _))))).
  exact (result_slots_sentinel_or_sample 3 4000 H1 H2 microbitMatrixMap storage0
           after_first.1 [StartSensing; TimeoutFires 100] after_first.2 H3 H4
           0%nat 100 H5).
Defined.

(** ** Where the driver departs from the specification *)



(** C9, as specified, fails: a second [startSensing] while the first cycle
    is still in flight runs the whole hand-off again. *)
Lemma startSensing_not_guarded :
  in_flight sensor_settling = true
  ∧ hw (startSensing 4000 sensor_settling)
    = hw sensor_settling
      ++ acquire_ops 4000 microbitMatrixMap 0 (Some 4)
  ∧ ¬ start_guarded 4000 sensor_settling.
Proof.
  split_and!; try reflexivity.
  unfold start_guarded. intros Hguard.
  specialize (Hguard eq_refl). vm_compute in Hguard. discriminate.
Qed.

(** ** The further properties on the micro:bit configuration *)

Lemma read_antitone_witness :
  0 < 450 ∧ INT_MIN ≤ 0 ∧ 450 ≤ INT_MAX ∧ (450 - 0) * 255 ≤ INT_MAX
  ∧ average after_third.1 ≤ average after_invalid.1
  ∧ 0 ≤ valid_average after_third.1 ≤ valid_average after_invalid.1
  ∧ read 0 450 false after_invalid.1 ≤ read 0 450 false after_third.1
  ∧ read 0 450 true after_invalid.1 ≤ read 0 450 true after_third.1.
Proof.
  assert (R1 : 0 < 450) by lia.
  assert (R2 : INT_MIN ≤ 0) by (unfold INT_MIN; lia).
  assert (R3 : 450 ≤ INT_MAX) by (unfold INT_MAX; lia).
  assert (R4 : (450 - 0) * 255 ≤ INT_MAX) by (unfold INT_MAX; lia).
  assert (H1 : average after_third.1 ≤ average after_invalid.1) by (simpl; lia).
  assert (H2 : 0 ≤ valid_average after_third.1 ≤ valid_average after_invalid.1)
    by (simpl; lia).
  refine (conj R1 (conj R2 (conj R3 (conj R4 (conj H1 (conj H2 _)))))).
  destruct (read_antitone 0 450 R1 R2 R3 R4 after_third.1 after_invalid.1) as [Hf Ht].
  exact (conj (Hf H1) (Ht H2)).
Defined.

Lemma read_saturates_witness :
  0 < 450 ∧ INT_MIN ≤ 0 ∧ 450 ≤ INT_MAX ∧ (450 - 0) * 255 ≤ INT_MAX
  ∧ (false = true → 0 ≤ average sensor0)
  ∧ average sensor0 ≤ 0
  ∧ 0 ≤ read 0 450 false sensor0 ≤ 255
  ∧ read 0 450 false sensor0 = 255.
Proof.
  assert (R1 : 0 < 450) by lia.
  assert (R2 : INT_MIN ≤ 0) by (unfold INT_MIN; lia).
  assert (R3 : 450 ≤ INT_MAX) by (unfold INT_MAX; lia).
  assert (R4 : (450 - 0) * 255 ≤ INT_MAX) by (unfold INT_MAX; lia).
  assert (H1 : false = true → 0 ≤ average sensor0) by (simpl; lia).
  assert (H2 : average sensor0 ≤ 0) by (simpl; lia).
  refine (conj R1 (conj R2 (conj R3 (conj R4 (conj H1 (conj H2 _)))))).
  destruct (read_saturates 0 450 R1 R2 R3 R4 false sensor0) as [Hrange Hsat].
  exact (conj Hrange (proj1 (Hsat H1) H2)).
Defined.

Lemma invalid_conversion_keeps_reading_witness :
  length (results (sensor_settling, ([] : list cycle)).1) = Z.to_nat 3
  ∧ step 3 4000 (TimeoutFires 100) (sensor_settling, []) = Some settled_first
  ∧ ¬ Forall in_window (results settled_first.1)
  ∧ valid_average settled_first.1 = valid_average sensor_settling
  ∧ raised settled_first.1 = raised sensor_settling
  ∧ read 0 450 true settled_first.1 = read 0 450 true sensor_settling.
Proof.
  assert (H1 : length (results (sensor_settling, ([] : list cycle)).1) = Z.to_nat 3)
    by reflexivity.
  assert (H2 : step 3 4000 (TimeoutFires 100) (sensor_settling, []) = Some settled_first)
    by (vm_compute; reflexivity).
  assert (H3 : ¬ Forall in_window (results settled_first.1)).
  { intros Hall. apply Forall_inv_tail, Forall_inv in Hall.
    unfold in_window in Hall. lia. }
  refine (conj H1 (conj H2 (conj H3 _))).
  exact (proj1 (invalid_conversion_keeps_reading 3 4000 0 450 100
                  (sensor_settling, []) settled_first H1) H2 H3).
Defined.

Lemma valid_conversion_refreshes_reading_witness :
  0 < 3 ∧ 3 * 65535 ≤ INT_MAX
  ∧ length (results before_third.1) = Z.to_nat 3
  ∧ step 3 4000 (TimeoutFires 125) before_third = Some after_third
  ∧ Forall in_window (results after_third.1)
  ∧ valid_average after_third.1 = average after_third.1
  ∧ 0 ≤ average after_third.1 ≤ 450
  ∧ read 0 450 true after_third.1 = read 0 450 false after_third.1.
Proof.
  assert (H1 : 0 < 3) by lia.
  assert (H2 : 3 * 65535 ≤ INT_MAX) by (unfold INT_MAX; lia).
  assert (H3 : length (results before_third.1) = Z.to_nat 3) by reflexivity.
  assert (H4 : step 3 4000 (TimeoutFires 125) before_third = Some after_third)
    by (vm_compute; reflexivity).
  assert (H5 : Forall in_window (results after_third.1)).
  { unfold in_window. repeat constructor; vm_compute; discriminate. }
  refine (conj H1 (conj H2 (conj H3 (conj H4 (conj H5 _))))).
  exact (valid_conversion_refreshes_reading 3 4000 0 450 H1 H2 125
           before_third after_third H3 H4 H5).
Defined.

Lemma first_rotation_no_reading_witness :
  0 < 3 ∧ 3 * 65535 ≤ INT_MAX
  ∧ length (results storage0) = Z.to_nat 3
  ∧ run 3 4000 scenario_open (MicroBitLightSensor_ctor 3 microbitMatrixMap storage0)
    = Some (before_third.1, before_third.2)
  ∧ Z.of_nat (length before_third.2) < 3
  ∧ valid_cycles before_third.2 = 0%nat
  ∧ valid_average before_third.1 = SENTINEL
  ∧ raised before_third.1 = raised storage0
  ∧ read 0 450 true before_third.1 = SENTINEL.
Proof.
  assert (H1 : 0 < 3) by lia.
  assert (H2 : 3 * 65535 ≤ INT_MAX) by (unfold INT_MAX; lia).
  assert (H3 : length (results storage0) = Z.to_nat 3) by reflexivity.
  assert (H4 : run 3 4000 scenario_open
                 (MicroBitLightSensor_ctor 3 microbitMatrixMap storage0)
               = Some (before_third.1, before_third.2)) by (vm_compute; reflexivity).
  assert (H5 : Z.of_nat (length before_third.2) < 3) by (simpl; lia).
  refine (conj H1 (conj H2 (conj H3 (conj H4 (conj H5 _))))).
  exact (first_rotation_no_reading 3 4000 0 450 H1 H2 microbitMatrixMap storage0
           before_third.1 scenario_open before_third.2 H3 H4 H5).
Defined.


Lemma at_most_one_AnalogIn_witness :
  run 3 4000 scenario_then_invalid (MicroBitLightSensor_ctor 3 microbitMatrixMap storage0)
  = Some (after_invalid.1, after_invalid.2)
  ∧ ∃ ops, hw after_invalid.1 = hw storage0 ++ ops
      ∧ analog_live ops = match sensePin after_invalid.1 with Some _ => 1 | None => 0 end
      ∧ 0 ≤ analog_live ops ≤ 1.
Proof.
  assert (H1 : run 3 4000 scenario_then_invalid
                 (MicroBitLightSensor_ctor 3 microbitMatrixMap storage0)
               = Some (after_invalid.1, after_invalid.2)) by (vm_compute; reflexivity).
  refine (conj H1 _).
  exact (at_most_one_AnalogIn 3 4000 microbitMatrixMap storage0 after_invalid.1
           scenario_then_invalid after_invalid.2 H1).
Defined.

Lemma averages_in_every_state_witness :
  0 < 3 ∧ 3 * 65535 ≤ INT_MAX
  ∧ length (results storage0) = Z.to_nat 3
  ∧ run 3 4000 scenario_open (MicroBitLightSensor_ctor 3 microbitMatrixMap storage0)
    = Some (before_third.1, before_third.2)
  ∧ before_third.2 ≠ []
  ∧ (valid_average before_third.1 = SENTINEL ∨ 0 ≤ valid_average before_third.1 ≤ 450)
  ∧ average before_third.1 = clamped_sum (results before_third.1) `div` 3
  ∧ 0 ≤ average before_third.1 ≤ 65535.
Proof.
  assert (H1 : 0 < 3) by lia.
  assert (H2 : 3 * 65535 ≤ INT_MAX) by (unfold INT_MAX; lia).
  assert (H3 : length (results storage0) = Z.to_nat 3) by reflexivity.
  assert (H4 : run 3 4000 scenario_open
                 (MicroBitLightSensor_ctor 3 microbitMatrixMap storage0)
               = Some (before_third.1, before_third.2)) by (vm_compute; reflexivity).
  assert (H5 : before_third.2 ≠ []) by (simpl; discriminate).
  refine (conj H1 (conj H2 (conj H3 (conj H4 (conj H5 _))))).
  destruct (averages_in_every_state 3 4000 H1 H2 microbitMatrixMap storage0
              before_third.1 scenario_open before_third.2 H3 H4) as [Hva Havg].
  exact (conj Hva (Havg H5)).
Defined.

Lemma bad_slot_blocks_rotation_witness :
  0 < 3 ∧ 3 * 65535 ≤ INT_MAX
  ∧ length (results storage0) = Z.to_nat 3
  ∧ run 3 4000 scenario_then_invalid (MicroBitLightSensor_ctor 3 microbitMatrixMap storage0)
    = Some (after_invalid.1, after_invalid.2)
  ∧ results after_invalid.1 !! 0%nat = Some 500
  ∧ ¬ in_window 500
  ∧ run_from 3 4000 two_more (after_invalid.1, after_invalid.2)
    = Some (after_two_more.1, after_two_more.2)
  ∧ Z.of_nat (length after_two_more.2) - Z.of_nat (length after_invalid.2)
    ≤ (Z.of_nat 0 - chan after_invalid.1) mod 3
  ∧ results after_two_more.1 !! 0%nat = Some 500
  ∧ valid_cycles after_two_more.2 = valid_cycles after_invalid.2
  ∧ valid_average after_two_more.1 = valid_average after_invalid.1
  ∧ read 0 450 true after_two_more.1 = read 0 450 true after_invalid.1.
Proof.
  assert (H1 : 0 < 3) by lia.
  assert (H2 : 3 * 65535 ≤ INT_MAX) by (unfold INT_MAX; lia).
  assert (H3 : length (results storage0) = Z.to_nat 3) by reflexivity.
  assert (H4 : run 3 4000 scenario_then_invalid
                 (MicroBitLightSensor_ctor 3 microbitMatrixMap storage0)
               = Some (after_invalid.1, after_invalid.2)) by (vm_compute; reflexivity).
  assert (H5 : results after_invalid.1 !! 0%nat = Some 500) by reflexivity.
  assert (H6 : ¬ in_window 500) by (unfold in_window; lia).
  assert (H7 : run_from 3 4000 two_more (after_invalid.1, after_invalid.2)
               = Some (after_two_more.1, after_two_more.2)) by (vm_compute; reflexivity).
  assert (H8 : Z.of_nat (length after_two_more.2) - Z.of_nat (length after_invalid.2)
               ≤ (Z.of_nat 0 - chan after_invalid.1) mod 3) by (vm_compute; discriminate).
  refine (conj H1 (conj H2 (conj H3 (conj H4 (conj H5 (conj H6 (conj H7 (conj H8 _)))))))).
  exact (bad_slot_blocks_rotation 3 4000 0 450 H1 H2 microbitMatrixMap storage0
           after_invalid.1 after_two_more.1 scenario_then_invalid two_more
           after_invalid.2 after_two_more.2 0%nat 500 H3 H4 H5 H6 H7 H8).
Defined.

Lemma full_rotation_gives_reading_witness :
  0 < 3 ∧ 3 * 65535 ≤ INT_MAX
  ∧ length (results storage0) = Z.to_nat 3
  ∧ run 3 4000 [] (MicroBitLightSensor_ctor 3 microbitMatrixMap storage0)
    = Some (sensor0, [])
  ∧ Forall in_window_action scenario
  ∧ run_from 3 4000 scenario (sensor0, []) = Some (after_third.1, after_third.2)
  ∧ 3 ≤ Z.of_nat (length after_third.2) - Z.of_nat (length ([] : list cycle))
  ∧ Forall in_window (results after_third.1)
  ∧ valid_average after_third.1 = average after_third.1
  ∧ 0 ≤ valid_average after_third.1 ≤ 450
  ∧ read 0 450 true after_third.1 = read 0 450 false after_third.1.
Proof.
  assert (H1 : 0 < 3) by lia.
  assert (H2 : 3 * 65535 ≤ INT_MAX) by (unfold INT_MAX; lia).
  assert (H3 : length (results storage0) = Z.to_nat 3) by reflexivity.
  assert (H4 : run 3 4000 [] (MicroBitLightSensor_ctor 3 microbitMatrixMap storage0)
               = Some (sensor0, [])) by reflexivity.
  assert (H5 : Forall in_window_action scenario).
  { unfold scenario, in_window_action, in_window.
    repeat constructor; vm_compute; discriminate. }
  assert (H6 : run_from 3 4000 scenario (sensor0, [])
               = Some (after_third.1, after_third.2)) by (vm_compute; reflexivity).
  assert (H7 : 3 ≤ Z.of_nat (length after_third.2) - Z.of_nat (length ([] : list cycle)))
    by (vm_compute; discriminate).
  refine (conj H1 (conj H2 (conj H3 (conj H4 (conj H5 (conj H6 (conj H7 _))))))).
  exact (full_rotation_gives_reading 3 4000 0 450 H1 H2 microbitMatrixMap storage0
           sensor0 after_third.1 [] scenario [] after_third.2 H3 H4 H5 H6 H7).
Defined.

Lemma frames_rotate_witness :
  0 < 3 ∧ 3 ≤ 3
  ∧ malloc_ok answers0 = true
  ∧ Forall (fun a => malloc_ok a = true) [answers0; answers0]
  ∧ ∃ s f,
      MicroBitEddyStoneService_ctor 3 false [104] [1] [2] answers0 eddy_storage
        ≫= advertise 3 false [answers0; answers0] = Some s
      ∧ 0 ≤ currentFrame s < 3
      ∧ currentFrame s = (1 + Z.of_nat (length [answers0; answers0])) mod 3
      ∧ selected_frame (List.last [answers0; answers0] answers0) (currentFrame s) = Some f
      ∧ last_service_data (eddy_ops s) = Some (fd_buffer f, fd_length f).
Proof.
  assert (H1 : 0 < 3) by lia.
  assert (H2 : 3 ≤ 3) by lia.
  assert (H3 : malloc_ok answers0 = true) by reflexivity.
  assert (H4 : Forall (fun a => malloc_ok a = true) [answers0; answers0])
    by (repeat constructor).
  refine (conj H1 (conj H2 (conj H3 (conj H4 _)))).
  exact (frames_rotate 3 false H1 H2 [104] [1] [2] answers0 eddy_storage
           [answers0; answers0] H3 H4).
Defined.

Lemma frame_buffers_freed_witness :
  0 < 3 ∧ 3 ≤ 3
  ∧ malloc_ok answers0 = true
  ∧ Forall (fun a => malloc_ok a = true) [answers0; answers0]
  ∧ ∃ s ops,
      MicroBitEddyStoneService_ctor 3 true [104] [1] [2] answers0 eddy_storage
        ≫= advertise 3 true [answers0; answers0] = Some s
      ∧ eddy_ops s = eddy_ops eddy_storage ++ ops
      ∧ heap_live ops = 0.
Proof.
  assert (H1 : 0 < 3) by lia.
  assert (H2 : 3 ≤ 3) by lia.
  assert (H3 : malloc_ok answers0 = true) by reflexivity.
  assert (H4 : Forall (fun a => malloc_ok a = true) [answers0; answers0])
    by (repeat constructor).
  refine (conj H1 (conj H2 (conj H3 (conj H4 _)))).
  exact (frame_buffers_freed 3 true H1 H2 [104] [1] [2] answers0 eddy_storage
           [answers0; answers0] H3 H4).
Defined.

Lemma construct_use_destroy_restores_bus_witness :
  0 < 3 ∧ 3 * 65535 ≤ INT_MAX
  ∧ length (results storage_shared) = Z.to_nat 3
  ∧ run 3 4000 scenario (MicroBitLightSensor_ctor 3 microbitMatrixMap storage_shared)
    = Some (after_shared.1, after_shared.2)
  ∧ (∀ l, l ∈ [other_listener] →
       listener_matches MICROBIT_ID_DISPLAY MICROBIT_DISPLAY_EVT_LIGHT_SENSE
         startSensing_handler l = false)
  ∧ defaultEventBus after_shared.1 = Some ([other_listener] ++ [sense_listener])
  ∧ defaultEventBus (MicroBitLightSensor_dtor after_shared.1) = Some [other_listener].
Proof.
  assert (H1 : 0 < 3) by lia.
  assert (H2 : 3 * 65535 ≤ INT_MAX) by (unfold INT_MAX; lia).
  assert (H3 : length (results storage_shared) = Z.to_nat 3) by reflexivity.
  assert (H4 : run 3 4000 scenario
                 (MicroBitLightSensor_ctor 3 microbitMatrixMap storage_shared)
               = Some (after_shared.1, after_shared.2)) by (vm_compute; reflexivity).
  assert (H5 : ∀ l, l ∈ [other_listener] →
                 listener_matches MICROBIT_ID_DISPLAY MICROBIT_DISPLAY_EVT_LIGHT_SENSE
                   startSensing_handler l = false).
  { intros l Hl. apply list_elem_of_singleton in Hl. rewrite Hl. reflexivity. }
  refine (conj H1 (conj H2 (conj H3 (conj H4 (conj H5 _))))).
  exact (construct_use_destroy_restores_bus 3 4000 H1 H2 microbitMatrixMap
           storage_shared after_shared.1 scenario after_shared.2 H3 H4 H5).
Defined.
